(** * Cloud-fetch download manager

    A shallow embedding of [databricks/sql/cloudfetch/download_manager.py]
    ([ResultFileDownloadManager]) and the properties of its scheduling
    algorithm: admission of links, eviction, submission to the worker pool,
    in-order delivery, expiry and bounded retry.

    The manager talks to two collaborators whose code lives elsewhere: the
    thread pool ([ThreadPoolExecutor.submit]) and the download handlers
    ([ResultSetDownloadHandler]), whose download state is written by worker
    threads.  Both are represented by an [Environment]: a pair of oracles
    that answer from the history of interactions so far.  Every method of
    the manager is a computation in a state-and-exception monad over the
    manager object and that history. *)

From Stdlib Require Import ZArith Lia String QArith.
From Stdlib Require Import Init.Byte.
From stdpp Require Import base tactics option list.

Open Scope Z_scope.

(** ** Data *)

Definition bytes := list byte.

(** [TSparkArrowResultLink] (thrift): the fields the manager and the
    handlers read. *)
Record TSparkArrowResultLink := {
  fileLink : string;
  expiryTime : Z;
  startRowOffset : Z;
  rowCount : Z;
}.

(** [DownloadableResultSettings] namedtuple. *)
Record DownloadableResultSettings := {
  is_lz4_compressed : bool;
  result_file_link_expiry_buffer : Z;
  download_timeout : Z;
  use_proxy : bool;
  disable_proxy_for_cloud_fetch : bool;
  proxy_host : string;
  proxy_port : Z;
  proxy_uid : string;
  proxy_pwd : string;
  max_consecutive_file_download_retries : Z;
  download_retry_wait_time : Q;
}.

(** [DownloadedFile] namedtuple. *)
Record DownloadedFile := {
  file_bytes : bytes;
  start_row_offset : Z;
  row_count : Z;
}.

Definition _get_downloadable_result_settings (lz4_compressed : bool)
  : DownloadableResultSettings :=
  {| is_lz4_compressed := lz4_compressed;
     result_file_link_expiry_buffer := 0;
     download_timeout := 0;
     use_proxy := false;
     disable_proxy_for_cloud_fetch := false;
     proxy_host := "";
     proxy_port := 0;
     proxy_uid := "";
     proxy_pwd := "";
     max_consecutive_file_download_retries := 0;
     download_retry_wait_time := (1 # 10)%Q |}.

(** Modelled from the spec: the class [ResultSetDownloadHandler] of module
    [downloader] is not among the sources.  A handle is built from
    (settings, link), carries its link and the flag [is_download_scheduled]
    (initially false), which is the only field the manager writes. *)
Record ResultSetDownloadHandler := {
  settings : DownloadableResultSettings;
  result_link : TSparkArrowResultLink;
  is_download_scheduled : bool;
}.

Definition new_handler (s : DownloadableResultSettings) (link : TSparkArrowResultLink)
  : ResultSetDownloadHandler :=
  {| settings := s; result_link := link; is_download_scheduled := false |}.

Definition mark_scheduled (h : ResultSetDownloadHandler) : ResultSetDownloadHandler :=
  {| settings := settings h; result_link := result_link h;
     is_download_scheduled := true |}.

(** Modelled from the spec: the download state of a handle, written by its
    worker thread and read by the manager after the blocking call
    [is_file_download_successful()]: the value that call returns, the two
    flags the manager tests next, and the decoded payload. *)
Record HandlerState := {
  is_file_downloaded_successfully : bool;
  is_link_expired : bool;
  is_download_timedout : bool;
  result_file : bytes;
}.

(** The tagged outcome the spec speaks of, in the order in which the code
    tests the flags. *)
Inductive Outcome := Success | Expired | TimedOut | Failed.

Definition outcome (o : HandlerState) : Outcome :=
  if is_file_downloaded_successfully o then Success
  else if is_link_expired o then Expired
  else if is_download_timedout o then TimedOut
  else Failed.

(** [ThreadPoolExecutor(max_workers=...)]. *)
Record ThreadPoolExecutor := { max_workers : Z }.

Record ResultFileDownloadManager := {
  download_handlers : list ResultSetDownloadHandler;
  thread_pool : ThreadPoolExecutor;
  downloadable_result_settings : DownloadableResultSettings;
  fetch_need_retry : bool;
  num_consecutive_result_file_download_retries : Z;
  cloud_fetch_index : Z;
}.

(** ** Interaction with the collaborators *)

(** [RuntimeError]: raised by [submit] when the pool takes no more work.
    [IndexError]: a list index out of range.  [RecursionError]: the nesting
    of [_check_if_download_successful] went past the depth given to it. *)
Inductive Exception := RuntimeError | IndexError | RecursionError.

(** What is handed to [thread_pool.submit]: the bound method [handler.run]
    (first scheduling) or the handler object itself (retry). *)
Inductive Work :=
| handler_run (h : ResultSetDownloadHandler)
| handler_itself (h : ResultSetDownloadHandler).

Inductive Event :=
| Submitted (w : Work)                  (* submit returned a future *)
| Rejected (w : Work) (e : Exception)   (* submit raised e *)
| Logged (e : Exception)                (* logger.error(e) *)
| Waited (h : ResultSetDownloadHandler). (* h.is_file_download_successful() returned *)

Definition History := list Event.

Record Environment := {
  (* does [submit] raise, given what happened so far *)
  pool_submit : History -> Work -> option Exception;
  (* the download state of a handle as visible after that history *)
  handler_state : History -> ResultSetDownloadHandler -> HandlerState;
}.

(** ** The monad: manager object and history, with exceptions *)

Record State := {
  self : ResultFileDownloadManager;
  history : History;
}.

Inductive Result (A : Type) :=
| Returns (a : A)
| Raises (e : Exception).
Arguments Returns {A} a.
Arguments Raises {A} e.

Definition M (A : Type) : Type := State -> Result A * State.

Definition ret {A} (a : A) : M A := fun s => (Returns a, s).

Definition raise {A} (e : Exception) : M A := fun s => (Raises e, s).

Definition bind {A B} (c : M A) (k : A -> M B) : M B :=
  fun s => match c s with
           | (Returns a, s') => k a s'
           | (Raises e, s') => (Raises e, s')
           end.

Definition try_except {A} (c : M A) (handler : Exception -> M A) : M A :=
  fun s => match c s with
           | (Returns a, s') => (Returns a, s')
           | (Raises e, s') => handler e s'
           end.

Declare Scope monad_scope.
Delimit Scope monad_scope with monad.
Notation "x <- c ;; k" := (bind c (fun x => k))
  (at level 20, c at level 99, k at level 200, only parsing) : monad_scope.
Notation "c ;; k" := (bind c (fun _ => k))
  (at level 100, k at level 200, only parsing, right associativity) : monad_scope.
Open Scope monad_scope.

Definition gets {A} (f : ResultFileDownloadManager -> A) : M A :=
  fun s => (Returns (f (self s)), s).

Definition modify (f : ResultFileDownloadManager -> ResultFileDownloadManager) : M unit :=
  fun s => (Returns tt, {| self := f (self s); history := history s |}).

Definition emit (ev : Event) : M unit :=
  fun s => (Returns tt, {| self := self s; history := history s ++ [ev] |}).

(** Field assignments [self.x = v]. *)
Definition set_download_handlers (v : list ResultSetDownloadHandler)
    (m : ResultFileDownloadManager) : ResultFileDownloadManager :=
  {| download_handlers := v;
     thread_pool := thread_pool m;
     downloadable_result_settings := downloadable_result_settings m;
     fetch_need_retry := fetch_need_retry m;
     num_consecutive_result_file_download_retries :=
       num_consecutive_result_file_download_retries m;
     cloud_fetch_index := cloud_fetch_index m |}.

Definition set_fetch_need_retry (v : bool)
    (m : ResultFileDownloadManager) : ResultFileDownloadManager :=
  {| download_handlers := download_handlers m;
     thread_pool := thread_pool m;
     downloadable_result_settings := downloadable_result_settings m;
     fetch_need_retry := v;
     num_consecutive_result_file_download_retries :=
       num_consecutive_result_file_download_retries m;
     cloud_fetch_index := cloud_fetch_index m |}.

Definition set_num_consecutive_result_file_download_retries (v : Z)
    (m : ResultFileDownloadManager) : ResultFileDownloadManager :=
  {| download_handlers := download_handlers m;
     thread_pool := thread_pool m;
     downloadable_result_settings := downloadable_result_settings m;
     fetch_need_retry := fetch_need_retry m;
     num_consecutive_result_file_download_retries := v;
     cloud_fetch_index := cloud_fetch_index m |}.

Definition set_cloud_fetch_index (v : Z)
    (m : ResultFileDownloadManager) : ResultFileDownloadManager :=
  {| download_handlers := download_handlers m;
     thread_pool := thread_pool m;
     downloadable_result_settings := downloadable_result_settings m;
     fetch_need_retry := fetch_need_retry m;
     num_consecutive_result_file_download_retries :=
       num_consecutive_result_file_download_retries m;
     cloud_fetch_index := v |}.

(** ** The manager *)

(** [__init__] *)
Definition __init__ (max_download_threads : Z) (lz4_compressed : bool)
  : ResultFileDownloadManager :=
  {| download_handlers := [];
     thread_pool := {| max_workers := max_download_threads + 1 |};
     downloadable_result_settings := _get_downloadable_result_settings lz4_compressed;
     fetch_need_retry := false;
     num_consecutive_result_file_download_retries := 0;
     cloud_fetch_index := 0 |}.

Section Manager.

Variable env : Environment.

(** [self.thread_pool.submit(w)] *)
Definition submit (w : Work) : M unit :=
  fun s => match pool_submit env (history s) w with
           | None => emit (Submitted w) s
           | Some e => (Raises e, {| self := self s;
                                     history := history s ++ [Rejected w e] |})
           end.

(** [logger.error(e)] *)
Definition logger_error (e : Exception) : M unit := emit (Logged e).

(** Reading the download state of a handle. *)
Definition observe (handler : ResultSetDownloadHandler) : M HandlerState :=
  fun s => (Returns (handler_state env (history s) handler), s).

(** [handler.is_file_download_successful()]: blocks, then reports. *)
Definition is_file_download_successful (handler : ResultSetDownloadHandler) : M bool :=
  emit (Waited handler) ;;
  o <- observe handler ;;
  ret (is_file_downloaded_successfully o).

(** [add_file_links] *)
Fixpoint add_file_links_loop (s : DownloadableResultSettings)
    (links : list TSparkArrowResultLink)
    (handlers : list ResultSetDownloadHandler) : list ResultSetDownloadHandler :=
  match links with
  | [] => handlers
  | link :: links' =>
      if rowCount link <=? 0 then add_file_links_loop s links' handlers
      else add_file_links_loop s links' (handlers ++ [new_handler s link])
  end.

Definition add_file_links (t_spark_arrow_result_links : list TSparkArrowResultLink)
    (next_row_index : Z) : M unit :=
  modify (fun m =>
    set_cloud_fetch_index next_row_index
      (set_download_handlers
         (add_file_links_loop (downloadable_result_settings m)
            t_spark_arrow_result_links (download_handlers m)) m)).

(** [_remove_past_handlers]: the [while] loop over index [i]; the list
    shrinks or [i] grows at every turn, so [length handlers] turns are
    enough. *)
Fixpoint remove_past_loop (turns : nat) (next_row_index : Z) (i : nat)
    (handlers : list ResultSetDownloadHandler) : list ResultSetDownloadHandler :=
  match turns with
  | O => handlers
  | S turns' =>
      match handlers !! i with
      | None => handlers                              (* not (i < len) *)
      | Some h =>
          let link := result_link h in
          if startRowOffset link + rowCount link >? next_row_index
          then remove_past_loop turns' next_row_index (S i) handlers
          else remove_past_loop turns' next_row_index i (delete i handlers)
      end
  end.

Definition _remove_past_handlers (next_row_index : Z) : M unit :=
  modify (fun m =>
    set_download_handlers
      (remove_past_loop (length (download_handlers m)) next_row_index 0
         (download_handlers m)) m).

(** [_schedule_downloads]: the [for] loop; the result is the list of the
    (same) handlers with the flags as the loop left them. *)
Fixpoint schedule_loop (handlers : list ResultSetDownloadHandler)
  : M (list ResultSetDownloadHandler) :=
  match handlers with
  | [] => ret []
  | handler :: rest =>
      if is_download_scheduled handler then
        rest' <- schedule_loop rest ;;
        ret (handler :: rest')
      else
        submitted <- try_except (submit (handler_run handler) ;; ret true)
                                (fun e => logger_error e ;; ret false) ;;
        if (submitted : bool) then
          rest' <- schedule_loop rest ;;
          ret (mark_scheduled handler :: rest')
        else ret (handler :: rest)                    (* break *)
  end.

Definition _schedule_downloads : M unit :=
  handlers <- gets download_handlers ;;
  handlers' <- schedule_loop handlers ;;
  modify (set_download_handlers handlers').

(** [_find_next_file_index] *)
Definition enumerate {A} (l : list A) : list (nat * A) := imap pair l.

Definition matches_next (next_row_index : Z) (ih : nat * ResultSetDownloadHandler) : Prop :=
  is_download_scheduled ih.2 = true ∧
  startRowOffset (result_link ih.2) = next_row_index.

#[local] Instance matches_next_dec next_row_index ih :
  Decision (matches_next next_row_index ih).
Proof. unfold matches_next. apply _. Defined.

Definition next_indices (next_row_index : Z)
    (handlers : list ResultSetDownloadHandler) : list nat :=
  (filter (matches_next next_row_index) (enumerate handlers)).*1.

Definition _find_next_file_index (next_row_index : Z) : M (option nat) :=
  handlers <- gets download_handlers ;;
  let next_indices := next_indices next_row_index handlers in
  ret (if (0 <? length next_indices)%nat then next_indices !! 0%nat else None).

(** [self.download_handlers[idx]] and [self.download_handlers.pop(idx)] *)
Definition list_item (idx : nat) : M ResultSetDownloadHandler :=
  handlers <- gets download_handlers ;;
  match handlers !! idx with
  | Some handler => ret handler
  | None => raise IndexError
  end.

Definition list_pop (idx : nat) : M unit :=
  handlers <- gets download_handlers ;;
  match handlers !! idx with
  | Some _ => modify (set_download_handlers (delete idx handlers))
  | None => raise IndexError
  end.

(** [_stop_all_downloads_and_clear_handlers] *)
Definition _stop_all_downloads_and_clear_handlers : M unit :=
  modify (set_download_handlers []).

(** [_check_if_download_successful]: the recursion re-enters only after
    the retry counter has grown and is still below the budget; [depth]
    bounds the nesting, and going past it raises [RecursionError].  With
    the depth that [_check_if_download_successful] passes this never
    happens ([check_if_download_successful_spec]). *)
Fixpoint check_loop (depth : nat) (handler : ResultSetDownloadHandler)
  : M bool :=
  match depth with
  | O => raise RecursionError
  | S depth' =>
      ok <- is_file_download_successful handler ;;
      if negb ok then
        o <- observe handler ;;
        if is_link_expired o then
          _stop_all_downloads_and_clear_handlers ;;
          modify (set_fetch_need_retry true) ;;
          ret false
        else if is_download_timedout o then
          retries <- gets num_consecutive_result_file_download_retries ;;
          budget <- gets (fun m => max_consecutive_file_download_retries
                                     (downloadable_result_settings m)) ;;
          if retries >=? budget then
            modify (set_fetch_need_retry true) ;;
            ret false
          else
            modify (set_num_consecutive_result_file_download_retries (retries + 1)) ;;
            submit (handler_itself handler) ;;
            check_loop depth' handler
        else
          modify (set_fetch_need_retry true) ;;
          ret false
      else
        modify (set_num_consecutive_result_file_download_retries 0) ;;
        modify (set_fetch_need_retry false) ;;
        ret true
  end.

(** Nesting that the budget allows from the current counter. *)
Definition retry_depth (m : ResultFileDownloadManager) : nat :=
  S (Z.to_nat (max_consecutive_file_download_retries (downloadable_result_settings m)
               - num_consecutive_result_file_download_retries m)).

Definition _check_if_download_successful (handler : ResultSetDownloadHandler)
  : M bool :=
  depth <- gets retry_depth ;;
  check_loop depth handler.

(** [get_next_downloaded_file] *)
Definition get_next_downloaded_file (next_row_index : Z)
  : M (option DownloadedFile) :=
  handlers <- gets download_handlers ;;
  match handlers with
  | [] => ret None
  | _ :: _ =>
      _remove_past_handlers next_row_index ;;
      _schedule_downloads ;;
      idx <- _find_next_file_index next_row_index ;;
      match idx with
      | None => ret None
      | Some idx =>
          handler <- list_item idx ;;
          ok <- _check_if_download_successful handler ;;
          if (ok : bool) then
            o <- observe handler ;;
            let result := {| file_bytes := result_file o;
                             start_row_offset := startRowOffset (result_link handler);
                             row_count := rowCount (result_link handler) |} in
            modify (fun m => set_cloud_fetch_index
                               (cloud_fetch_index m + rowCount (result_link handler)) m) ;;
            list_pop idx ;;
            ret (Some result)
          else ret None
      end
  end.

End Manager.

(** ** Vocabulary of the properties *)

(** A link that carries rows. *)
Definition has_rows (link : TSparkArrowResultLink) : Prop := 0 < rowCount link.

#[local] Instance has_rows_dec link : Decision (has_rows link).
Proof. unfold has_rows. apply _. Defined.

(** A handle is still needed at [next_row_index] when its range ends after it. *)
Definition still_needed (next_row_index : Z) (h : ResultSetDownloadHandler) : Prop :=
  next_row_index < startRowOffset (result_link h) + rowCount (result_link h).

#[local] Instance still_needed_dec next_row_index h : Decision (still_needed next_row_index h).
Proof. unfold still_needed. apply _. Defined.

(** The state with more history, and with other pending handlers. *)
Definition extend (s : State) (evs : list Event) : State :=
  {| self := self s; history := history s ++ evs |}.

Definition with_handlers (handlers : list ResultSetDownloadHandler) (s : State) : State :=
  {| self := set_download_handlers handlers (self s); history := history s |}.

(** What a pass does to a handle it reaches and whose work the pool takes. *)
Definition scheduled_now (h : ResultSetDownloadHandler) : ResultSetDownloadHandler :=
  if is_download_scheduled h then h else mark_scheduled h.

(** The event of a first submission that the pool took. *)
Definition is_Submitted (ev : Event) : Prop :=
  match ev with Submitted (handler_run _) => True | _ => False end.

(** What [_find_next_file_index] looks for. *)
Definition wanted (next_row_index : Z) (h : ResultSetDownloadHandler) : Prop :=
  is_download_scheduled h = true ∧ startRowOffset (result_link h) = next_row_index.

#[local] Instance wanted_dec next_row_index h : Decision (wanted next_row_index h).
Proof. unfold wanted. apply _. Defined.

(** The fields [_check_if_download_successful] never writes. *)
Definition same_configuration (m m' : ResultFileDownloadManager) : Prop :=
  thread_pool m' = thread_pool m ∧
  downloadable_result_settings m' = downloadable_result_settings m ∧
  cloud_fetch_index m' = cloud_fetch_index m.

(** How many more retries the budget allows. *)
Definition retries_left (m : ResultFileDownloadManager) : nat :=
  Z.to_nat (max_consecutive_file_download_retries (downloadable_result_settings m)
            - num_consecutive_result_file_download_retries m).

(** What a call of [_check_if_download_successful] on [handler] that went
    from [s] to [s'] with result [r] and new events [evs] has done;
    [overflow] says when the nesting may have gone past its depth. *)
Definition resolution (env : Environment) (handler : ResultSetDownloadHandler)
    (overflow : Prop) (s : State) (r : Result bool) (s' : State) (evs : list Event) : Prop :=
  let m := self s in
  let m' := self s' in
  match r with
  | Returns true =>
      download_handlers m' = download_handlers m ∧
      fetch_need_retry m' = false ∧
      num_consecutive_result_file_download_retries m' = 0 ∧
      outcome (handler_state env (history s') handler) = Success
  | Returns false =>
      fetch_need_retry m' = true ∧
      num_consecutive_result_file_download_retries m
        ≤ num_consecutive_result_file_download_retries m' ∧
      match outcome (handler_state env (history s') handler) with
      | Success => False
      | Expired => download_handlers m' = []
      | TimedOut =>
          download_handlers m' = download_handlers m ∧
          max_consecutive_file_download_retries (downloadable_result_settings m')
            ≤ num_consecutive_result_file_download_retries m'
      | Failed => download_handlers m' = download_handlers m
      end
  | Raises e =>
      download_handlers m' = download_handlers m ∧
      ((∃ evs0, evs = evs0 ++ [Rejected (handler_itself handler) e]) ∨ overflow)
  end.

(** The state in which [get_next_downloaded_file] looks for the next file:
    after [_remove_past_handlers] and [_schedule_downloads]. *)
Definition after_scheduling (env : Environment) (next_row_index : Z) (s : State) : State :=
  snd ((_remove_past_handlers next_row_index ;; _schedule_downloads env) s).

(** The index [_find_next_file_index] returns there, and the handle at it. *)
Definition located (env : Environment) (next_row_index : Z) (s : State) : option nat :=
  match _find_next_file_index next_row_index (after_scheduling env next_row_index s) with
  | (Returns idx, _) => idx
  | (Raises _, _) => None
  end.

Definition located_handler (env : Environment) (next_row_index : Z) (s : State)
  : option ResultSetDownloadHandler :=
  match download_handlers (self s), located env next_row_index s with
  | _ :: _, Some idx => download_handlers (self (after_scheduling env next_row_index s)) !! idx
  | _, _ => None
  end.

(** The state a successful delivery of the handle at [idx] leaves. *)
Definition delivered (idx : nat) (handler : ResultSetDownloadHandler) (s : State) : State :=
  {| self := set_download_handlers (delete idx (download_handlers (self s)))
               (set_cloud_fetch_index
                  (cloud_fetch_index (self s) + rowCount (result_link handler)) (self s));
     history := history s |}.

Definition downloaded_file (env : Environment) (handler : ResultSetDownloadHandler)
    (s : State) : DownloadedFile :=
  {| file_bytes := result_file (handler_state env (history s) handler);
     start_row_offset := startRowOffset (result_link handler);
     row_count := rowCount (result_link handler) |}.

(** States along a resolution: after the blocking call on [handler], and
    after a retry has been counted and its resubmission taken. *)
Definition waited (handler : ResultSetDownloadHandler) (s : State) : State :=
  extend s [Waited handler].

Definition retried (handler : ResultSetDownloadHandler) (s : State) : State :=
  {| self := set_num_consecutive_result_file_download_retries
               (num_consecutive_result_file_download_retries (self s) + 1) (self s);
     history := history s ++ [Waited handler; Submitted (handler_itself handler)] |}.

(** The outcome that a blocking call on [handler] made in state [s] sees. *)
Definition observed_outcome (env : Environment) (handler : ResultSetDownloadHandler)
    (s : State) : Outcome :=
  outcome (handler_state env (history (waited handler s)) handler).

(** The test [retries >= max_consecutive_file_download_retries]. *)
Definition budget_exhausted (m : ResultFileDownloadManager) : Prop :=
  max_consecutive_file_download_retries (downloadable_result_settings m)
  ≤ num_consecutive_result_file_download_retries m.

(** A handle whose range ends at or before [next_row_index]. *)
Definition past (next_row_index : Z) (h : ResultSetDownloadHandler) : Prop :=
  startRowOffset (result_link h) + rowCount (result_link h) ≤ next_row_index.

(** A link without rows. *)
Definition zero_rows (link : TSparkArrowResultLink) : Prop := rowCount link = 0.

#[local] Instance zero_rows_dec link : Decision (zero_rows link).
Proof. unfold zero_rows. apply _. Defined.

(** Calls of the public methods, and sequences of them. *)
Inductive Call :=
| Register (links : list TSparkArrowResultLink) (next_row_index : Z)
| FetchNext (next_row_index : Z).

Definition perform (env : Environment) (s : State) (c : Call) : State :=
  match c with
  | Register links next_row_index => snd (add_file_links links next_row_index s)
  | FetchNext next_row_index => snd (get_next_downloaded_file env next_row_index s)
  end.

Definition run (env : Environment) (calls : list Call) (s : State) : State :=
  foldl (perform env) s calls.

Definition created (max_download_threads : Z) (lz4_compressed : bool) : State :=
  {| self := __init__ max_download_threads lz4_compressed; history := [] |}.

(** Every pending handle is for a link that carries rows. *)
Definition pending_have_rows (s : State) : Prop :=
  Forall (λ h, has_rows (result_link h)) (download_handlers (self s)).

(** The handles resubmitted in a stretch of history, oldest first. *)
Definition resubmitted (ev : Event) : option ResultSetDownloadHandler :=
  match ev with
  | Submitted (handler_itself h) => Some h
  | _ => None
  end.

Definition resubmissions (evs : list Event) : list ResultSetDownloadHandler :=
  omap resubmitted evs.

(** The events of a resolution that retries [n] times and then stops. *)
Fixpoint retry_events (n : nat) (handler : ResultSetDownloadHandler) : list Event :=
  match n with
  | O => [Waited handler]
  | S n' => Waited handler :: Submitted (handler_itself handler) :: retry_events n' handler
  end.

(** From state [s], the resolution of [handler] ends, after [n] timeouts
    that were retried, in a failure that is not an expiry, or in a timeout
    with the budget used up. *)
Inductive gives_up (env : Environment) (handler : ResultSetDownloadHandler)
  : nat → State → Prop :=
| gives_up_failed s :
    observed_outcome env handler s = Failed →
    gives_up env handler 0 s
| gives_up_exhausted s :
    observed_outcome env handler s = TimedOut →
    budget_exhausted (self s) →
    gives_up env handler 0 s
| gives_up_retried n s :
    observed_outcome env handler s = TimedOut →
    ¬ budget_exhausted (self s) →
    pool_submit env (history (waited handler s)) (handler_itself handler) = None →
    gives_up env handler n (retried handler s) →
    gives_up env handler (S n) s.

(** The events a resolution of [handler] can add to the history. *)
Definition is_resolution_event (handler : ResultSetDownloadHandler) (ev : Event) : Prop :=
  match ev with
  | Waited h => h = handler
  | Submitted (handler_itself h) => h = handler
  | Rejected (handler_itself h) _ => h = handler
  | _ => False
  end.


(** A handle whose work the pool has taken. *)
Definition scheduled (h : ResultSetDownloadHandler) : Prop :=
  is_download_scheduled h = true.

(** Row ranges as (first row, number of rows). *)
Definition range_of_link (link : TSparkArrowResultLink) : Z * Z :=
  (startRowOffset link, rowCount link).

Definition range_of_file (file : DownloadedFile) : Z * Z :=
  (start_row_offset file, row_count file).

(** The ranges, in this order, tile the rows [from, to): each starts where
    the one before it ends, none is empty, the first starts at [from] and
    the last ends at [to]. *)
Fixpoint tiling (from to : Z) (ranges : list (Z * Z)) : Prop :=
  match ranges with
  | [] => from = to
  | range :: ranges' =>
      range.1 = from ∧ 0 < range.2 ∧ tiling (from + range.2) to ranges'
  end.

(** A set of links is gap-free, non-overlapping and covers rows [0, N):
    those that carry rows can be put in an order that tiles [0, N). *)
Definition covers (N : Z) (links : list TSparkArrowResultLink) : Prop :=
  ∃ chain, filter has_rows links ≡ₚ chain ∧ tiling 0 N (range_of_link <$> chain).

(** The consumer: it registers batches of links and fetches at its
    cursor, which starts at row 0 and moves to the row after each file it
    receives. *)
Inductive Step :=
| AddLinks (links : list TSparkArrowResultLink) (next_row_index : Z)
| Fetch.

Record Consumer := {
  manager : State;
  cursor : Z;
  received : list DownloadedFile;
}.

Definition step (env : Environment) (c : Consumer) (st : Step) : Consumer :=
  match st with
  | AddLinks links next_row_index =>
      {| manager := snd (add_file_links links next_row_index (manager c));
         cursor := cursor c;
         received := received c |}
  | Fetch =>
      match get_next_downloaded_file env (cursor c) (manager c) with
      | (Returns (Some file), s') =>
          {| manager := s';
             cursor := start_row_offset file + row_count file;
             received := received c ++ [file] |}
      | (_, s') =>
          {| manager := s'; cursor := cursor c; received := received c |}
      end
  end.

Definition consume (env : Environment) (steps : list Step) (c : Consumer) : Consumer :=
  foldl (step env) c steps.

Definition starting (s : State) : Consumer :=
  {| manager := s; cursor := 0; received := [] |}.

(** All the links that a sequence of steps registers. *)
Fixpoint registered (steps : list Step) : list TSparkArrowResultLink :=
  match steps with
  | [] => []
  | AddLinks links _ :: steps' => links ++ registered steps'
  | Fetch :: steps' => registered steps'
  end.

(** The links of the pending handlers, in pending order. *)
Definition pending_links (s : State) : list TSparkArrowResultLink :=
  result_link <$> download_handlers (self s).

(** The consumer has received the files for [done] and is at the start of
    [rest]; the links of [rest] are the pending ones and those in [future],
    still to be registered. *)
Definition in_step (N : Z) (done rest future : list TSparkArrowResultLink)
    (c : Consumer) : Prop :=
  range_of_file <$> received c = range_of_link <$> done ∧
  tiling (cursor c) N (range_of_link <$> rest) ∧
  pending_links (manager c) ++ future ≡ₚ rest.

(** A session: the steps, then [n] more fetches. *)
Definition session (env : Environment) (steps : list Step) (n : nat) (s : State) : Consumer :=
  consume env (steps ++ replicate n Fetch) (starting s).

(** ** Concrete links, environments and states for the examples *)

Definition link (name : string) (start count : Z) : TSparkArrowResultLink :=
  {| fileLink := name; expiryTime := 0; startRowOffset := start; rowCount := count |}.

Definition download_state (o : Outcome) (file : bytes) : HandlerState :=
  {| is_file_downloaded_successfully := match o with Success => true | _ => false end;
     is_link_expired := match o with Expired => true | _ => false end;
     is_download_timedout := match o with TimedOut => true | _ => false end;
     result_file := file |}.

(** Every submission is taken and every download succeeds. *)
Definition all_succeed : Environment :=
  {| pool_submit := λ _ _, None;
     handler_state := λ _ _, download_state Success [x2a] |}.

Definition fresh : State := {| self := __init__ 3 false; history := [] |}.

(** The scenario of the spec: links {0,10} and {10,15}, index 25. *)
Definition two_links : State :=
  snd (add_file_links [link "a" 0 10; link "b" 10 15] 25 fresh).

Definition delivery_of_first_link : Result (option DownloadedFile) * State :=
  Eval vm_compute in get_next_downloaded_file all_succeed 0 two_links.

(** Two links that start at the same row. *)
Definition same_start : State :=
  snd (add_file_links [link "a" 0 10; link "b" 0 10] 10 fresh).

(** The download of the link that starts at row 10 has expired; the other
    downloads succeed. *)
Definition second_expired : Environment :=
  {| pool_submit := λ _ _, None;
     handler_state := λ _ h,
       if startRowOffset (result_link h) =? 10
       then download_state Expired []
       else download_state Success [x2a] |}.

(** A manager with one pending link {0,10} and a retry budget. *)
Definition settings_with_budget (budget : Z) : DownloadableResultSettings :=
  {| is_lz4_compressed := false;
     result_file_link_expiry_buffer := 0;
     download_timeout := 0;
     use_proxy := false;
     disable_proxy_for_cloud_fetch := false;
     proxy_host := "";
     proxy_port := 0;
     proxy_uid := "";
     proxy_pwd := "";
     max_consecutive_file_download_retries := budget;
     download_retry_wait_time := (1 # 10)%Q |}.

Definition patient (budget : Z) : State :=
  {| self :=
       {| download_handlers := [new_handler (settings_with_budget budget) (link "a" 0 10)];
          thread_pool := {| max_workers := 4 |};
          downloadable_result_settings := settings_with_budget budget;
          fetch_need_retry := false;
          num_consecutive_result_file_download_retries := 0;
          cloud_fetch_index := 10 |};
     history := [] |}.

Definition patient_handler (budget : Z) : ResultSetDownloadHandler :=
  mark_scheduled (new_handler (settings_with_budget budget) (link "a" 0 10)).

(** Downloads time out until one has been resubmitted, then fail. *)
Definition times_out_once : Environment :=
  {| pool_submit := λ _ _, None;
     handler_state := λ hist _,
       match resubmissions hist with
       | [] => download_state TimedOut []
       | _ :: _ => download_state Failed []
       end |}.

(** Downloads always time out. *)
Definition always_times_out : Environment :=
  {| pool_submit := λ _ _, None;
     handler_state := λ _ _, download_state TimedOut [] |}.





(** Three links registered in two batches and out of row order, with a
    fetch in between and a link without rows. *)
Definition two_batches : list Step :=
  [AddLinks [link "a" 0 10] 10; Fetch;
   AddLinks [link "c" 25 5; link "b" 10 15; link "z" 30 0] 30].

(** ** Vocabulary of the further properties *)

(** What a call may do to a handle that stays pending: nothing, or set
    [is_download_scheduled]. *)
Definition upgraded (h h' : ResultSetDownloadHandler) : Prop :=
  h' = h ∨ (is_download_scheduled h = false ∧ h' = mark_scheduled h).

(** The retry counter is between zero and the budget. *)
Definition within_budget (m : ResultFileDownloadManager) : Prop :=
  0 ≤ num_consecutive_result_file_download_retries m
  ≤ max_consecutive_file_download_retries (downloadable_result_settings m).

(** From state [s], the download of [handler] is seen to succeed after
    [n] timeouts that were retried. *)
Inductive succeeds_after (env : Environment) (handler : ResultSetDownloadHandler)
  : nat → State → Prop :=
| succeeds_now s :
    observed_outcome env handler s = Success →
    succeeds_after env handler 0 s
| succeeds_retried n s :
    observed_outcome env handler s = TimedOut →
    ¬ budget_exhausted (self s) →
    pool_submit env (history (waited handler s)) (handler_itself handler) = None →
    succeeds_after env handler n (retried handler s) →
    succeeds_after env handler (S n) s.

(** The scheduled handlers come first in pending order. *)
Definition scheduled_first (handlers : list ResultSetDownloadHandler) : Prop :=
  ∃ pre post,
    handlers = pre ++ post ∧
    Forall scheduled pre ∧
    Forall (λ h, is_download_scheduled h = false) post.

(** The consumer has received, in row order, the files for [done], the
    first part of [chain], and is at the start of [rest]; the pending
    links and those of [future], still to be registered, are among
    [rest]. *)
Definition in_order (N : Z) (chain done rest future : list TSparkArrowResultLink)
    (c : Consumer) : Prop :=
  chain = done ++ rest ∧
  range_of_file <$> received c = range_of_link <$> done ∧
  tiling 0 (cursor c) (range_of_link <$> done) ∧
  tiling (cursor c) N (range_of_link <$> rest) ∧
  pending_links (manager c) ++ future ⊆+ rest.

(** Downloads always time out and the pool takes first submissions but
    no resubmission. *)
Definition rejects_resubmissions : Environment :=
  {| pool_submit := λ _ w,
       match w with
       | handler_run _ => None
       | handler_itself _ => Some RuntimeError
       end;
     handler_state := λ _ _, download_state TimedOut [] |}.

(** Downloads time out until one has been resubmitted, then succeed. *)
Definition times_out_then_succeeds : Environment :=
  {| pool_submit := λ _ _, None;
     handler_state := λ hist _,
       match resubmissions hist with
       | [] => download_state TimedOut []
       | _ :: _ => download_state Success [x2a]
       end |}.

(** The pool takes no work at all and downloads fail. *)
Definition rejects_everything : Environment :=
  {| pool_submit := λ _ _, Some RuntimeError;
     handler_state := λ _ _, download_state Failed [] |}.

(** The download of the link named "a" has expired; the other downloads
    succeed. *)
Definition first_expired : Environment :=
  {| pool_submit := λ _ _, None;
     handler_state := λ _ h,
       if String.eqb (fileLink (result_link h)) "a"
       then download_state Expired []
       else download_state Success [x2a] |}.


Definition second_at_0 : ResultSetDownloadHandler :=
  mark_scheduled (new_handler (_get_downloadable_result_settings false) (link "b" 0 10)).

(** * Properties *)

Lemma add_file_links_loop_spec s links handlers :
  add_file_links_loop s links handlers
  = handlers ++ (new_handler s <$> filter has_rows links).
Proof.
  revert handlers. induction links as [|link links IH]; intros handlers; simpl.
  - by rewrite app_nil_r.
  - destruct (Z.leb_spec (rowCount link) 0) as [Hle|Hlt].
    + rewrite IH, filter_cons_False; [done | unfold has_rows; lia].
    + rewrite IH, filter_cons_True by (unfold has_rows; lia).
      by rewrite <- app_assoc.
Qed.

Lemma remove_past_loop_spec next_row_index turns :
  ∀ i (handlers : list ResultSetDownloadHandler),
    (length handlers ≤ i + turns)%nat →
    remove_past_loop turns next_row_index i handlers
    = take i handlers ++ filter (still_needed next_row_index) (drop i handlers).
Proof.
  induction turns as [|turns IH]; intros i handlers Hlen; simpl.
  - rewrite drop_ge, take_ge by lia. by rewrite app_nil_r.
  - destruct (handlers !! i) as [h|] eqn:Hi.
    + pose proof (lookup_lt_Some _ _ _ Hi) as Hlt.
      rewrite (drop_S _ _ _ Hi).
      destruct (Z.gtb_spec (startRowOffset (result_link h) + rowCount (result_link h))
                  next_row_index) as [Hgt|Hle].
      * rewrite IH by lia.
        rewrite (take_S_r _ _ _ Hi), filter_cons_True by (unfold still_needed; lia).
        by rewrite <- app_assoc.
      * rewrite IH by (rewrite length_delete by eauto; lia).
        rewrite filter_cons_False by (unfold still_needed; lia).
        rewrite delete_take_drop.
        rewrite take_app_length' by (rewrite length_take; lia).
        rewrite drop_app_length' by (rewrite length_take; lia).
        done.
    + apply lookup_ge_None in Hi.
      rewrite drop_ge, take_ge by lia. by rewrite app_nil_r.
Qed.

Lemma remove_past_handlers_spec next_row_index s :
  _remove_past_handlers next_row_index s
  = (Returns tt,
     {| self := set_download_handlers
                  (filter (still_needed next_row_index) (download_handlers (self s)))
                  (self s);
        history := history s |}).
Proof.
  unfold _remove_past_handlers, modify.
  rewrite remove_past_loop_spec by lia. by rewrite take_0, drop_0.
Qed.

(** ** History bookkeeping *)

Lemma extend_nil s : extend s [] = s.
Proof. destruct s; unfold extend; simpl. by rewrite app_nil_r. Qed.

Lemma extend_extend s evs evs' : extend (extend s evs) evs' = extend s (evs ++ evs').
Proof. unfold extend; simpl. by rewrite app_assoc. Qed.

(** ** Scheduling pass *)

Section Scheduling.

Variable env : Environment.

Lemma scheduled_now_scheduled h : is_download_scheduled (scheduled_now h) = true.
Proof. unfold scheduled_now. by destruct (is_download_scheduled h) eqn:E. Qed.

Lemma scheduled_now_link h : result_link (scheduled_now h) = result_link h.
Proof. unfold scheduled_now. by destruct (is_download_scheduled h). Qed.

Lemma scheduled_now_id h : is_download_scheduled h = true → scheduled_now h = h.
Proof. unfold scheduled_now. by intros ->. Qed.

Lemma scheduled_now_new h :
  is_download_scheduled h = false → scheduled_now h = mark_scheduled h.
Proof. unfold scheduled_now. by intros ->. Qed.

(** The pass reaches a prefix [pre] of the handlers; it stops early exactly
    when the pool rejects the work of the first handle of [post], and then
    logs the exception it caught and returns normally. *)
Lemma schedule_loop_spec handlers :
  ∀ s, ∃ pre post evs,
    handlers = pre ++ post ∧
    schedule_loop env handlers s
    = (Returns ((scheduled_now <$> pre) ++ post), extend s evs) ∧
    match post with
    | [] => Forall is_Submitted evs
    | h :: _ =>
        is_download_scheduled h = false ∧
        ∃ e evs0, evs = evs0 ++ [Rejected (handler_run h) e; Logged e] ∧
                  Forall is_Submitted evs0 ∧
                  pool_submit env (history s ++ evs0) (handler_run h) = Some e
    end.
Proof.
  induction handlers as [|h rest IH]; intros s.
  - exists [], [], []. simpl. unfold ret. by rewrite extend_nil.
  - simpl. destruct (is_download_scheduled h) eqn:Hs.
    + destruct (IH s) as (pre & post & evs & -> & Hrun & Hpost).
      exists (h :: pre), post, evs. split; [done|]. split; [|done].
      unfold bind, ret. rewrite Hrun. simpl. by rewrite scheduled_now_id.
    + unfold bind at 1. unfold try_except, bind at 1, submit.
      destruct (pool_submit env (history s) (handler_run h)) as [e|] eqn:Hp.
      * exists [], (h :: rest), [Rejected (handler_run h) e; Logged e].
        split; [done|]. split.
        { unfold logger_error, bind, emit, ret, extend. simpl.
          by rewrite <- app_assoc. }
        split; [done|]. exists e, []. rewrite app_nil_r. by repeat split.
      * unfold emit, ret. simpl.
        set (s1 := {| self := self s;
                      history := history s ++ [Submitted (handler_run h)] |}).
        destruct (IH s1) as (pre & post & evs & -> & Hrun & Hpost).
        exists (h :: pre), post, (Submitted (handler_run h) :: evs).
        split; [done|]. split.
        { unfold bind, ret. rewrite Hrun. simpl.
          rewrite (scheduled_now_new h Hs).
          f_equal. unfold extend, s1. simpl. by rewrite <- app_assoc. }
        destruct post as [|h' post'].
        { by constructor. }
        destruct Hpost as (Hs' & e & evs0 & -> & Hsub & Hrej).
        split; [done|]. exists e, (Submitted (handler_run h) :: evs0).
        split; [done|]. split; [by constructor|].
        unfold s1 in Hrej. simpl in Hrej. by rewrite <- app_assoc in Hrej.
Qed.

Lemma schedule_downloads_spec s :
  ∃ pre post evs,
    download_handlers (self s) = pre ++ post ∧
    _schedule_downloads env s
    = (Returns tt, with_handlers ((scheduled_now <$> pre) ++ post) (extend s evs)) ∧
    match post with
    | [] => Forall is_Submitted evs
    | h :: _ =>
        is_download_scheduled h = false ∧
        ∃ e evs0, evs = evs0 ++ [Rejected (handler_run h) e; Logged e] ∧
                  Forall is_Submitted evs0 ∧
                  pool_submit env (history s ++ evs0) (handler_run h) = Some e
    end.
Proof.
  destruct (schedule_loop_spec (download_handlers (self s)) s)
    as (pre & post & evs & Heq & Hrun & Hpost).
  exists pre, post, evs. split; [done|]. split; [|done].
  unfold _schedule_downloads, bind, gets. by rewrite Hrun.
Qed.

(** With a pool that takes everything, every handle ends up scheduled. *)
Lemma schedule_downloads_accepting s :
  (∀ hist w, pool_submit env hist w = None) →
  ∃ evs, _schedule_downloads env s
         = (Returns tt,
            with_handlers (scheduled_now <$> download_handlers (self s)) (extend s evs)).
Proof.
  intros Hacc.
  destruct (schedule_downloads_spec s) as (pre & post & evs & Heq & Hrun & Hpost).
  destruct post as [|h post].
  - exists evs. rewrite app_nil_r in Heq, Hrun. by rewrite Hrun, Heq.
  - destruct Hpost as (_ & e & evs0 & _ & _ & Hrej). by rewrite Hacc in Hrej.
Qed.

End Scheduling.

(** ** Locating the next file *)

Lemma next_indices_from next_row_index (handlers : list ResultSetDownloadHandler) :
  ∀ k, head (filter (matches_next next_row_index)
               (imap (λ i, pair (k + i)%nat) handlers)).*1
       = (λ p, (k + p.1)%nat) <$> list_find (wanted next_row_index) handlers.
Proof.
  induction handlers as [|h rest IH]; intros k; [done|].
  rewrite imap_cons. simpl list_find.
  rewrite (imap_ext _ (λ i, pair (S k + i)%nat))
    by (intros; simpl; f_equal; lia).
  destruct (decide (wanted next_row_index h)) as [Hw|Hw].
  - by rewrite filter_cons_True.
  - rewrite filter_cons_False by done. rewrite IH.
    destruct (list_find (wanted next_row_index) rest) as [[i x]|]; simpl.
    + f_equal. lia.
    + reflexivity.
Qed.

Lemma next_indices_head next_row_index handlers :
  head (next_indices next_row_index handlers)
  = fst <$> list_find (wanted next_row_index) handlers.
Proof.
  unfold next_indices, enumerate.
  rewrite (imap_ext _ (λ i, pair (0 + i)%nat)) by done.
  rewrite next_indices_from.
  by destruct (list_find _ _) as [[i x]|].
Qed.

Lemma find_next_file_index_spec next_row_index s :
  _find_next_file_index next_row_index s
  = (Returns (fst <$> list_find (wanted next_row_index) (download_handlers (self s))), s).
Proof.
  unfold _find_next_file_index, bind, gets, ret. simpl.
  rewrite <- next_indices_head.
  by destruct (next_indices next_row_index (download_handlers (self s))).
Qed.

(** ** Resolving the located handle *)

Ltac run_monad :=
  unfold _stop_all_downloads_and_clear_handlers, is_file_download_successful,
    observe, submit, logger_error, bind, ret, raise, gets, modify, emit; simpl.

Section Resolve.

Variable env : Environment.

Lemma check_loop_spec handler depth :
  ∀ s, ∃ r s' evs,
    check_loop env depth handler s = (r, s') ∧
    history s' = history s ++ evs ∧
    same_configuration (self s) (self s') ∧
    resolution env handler (depth ≤ retries_left (self s))%nat s r s' evs.
Proof.
  induction depth as [|depth IH]; intros s.
  - exists (Raises RecursionError), s, []. simpl.
    rewrite app_nil_r. repeat split; auto. right. lia.
  - simpl. run_monad.
    destruct (handler_state env (history s ++ [Waited handler]) handler)
      as [ok expired timedout file] eqn:Hobs.
    destruct ok; simpl; rewrite ?Hobs; simpl.
    { eexists _, _, [Waited handler]. split; [reflexivity|]. simpl.
      repeat split; auto. unfold outcome. by rewrite Hobs. }
    destruct expired; simpl; rewrite ?Hobs; simpl.
    { eexists _, _, [Waited handler]. split; [reflexivity|]. simpl.
      repeat split; auto; try lia. unfold outcome. by rewrite Hobs. }
    destruct timedout; simpl; rewrite ?Hobs; simpl.
    2:{ eexists _, _, [Waited handler]. split; [reflexivity|]. simpl.
        repeat split; auto; try lia. unfold outcome. by rewrite Hobs. }
    destruct (Z.geb_spec (num_consecutive_result_file_download_retries (self s))
                (max_consecutive_file_download_retries
                   (downloadable_result_settings (self s)))) as [Hge|Hlt].
    { eexists _, _, [Waited handler]. split; [reflexivity|]. simpl.
      repeat split; auto; try lia. unfold outcome. rewrite Hobs. simpl.
      split; [done | lia]. }
    cbn [history self].
    destruct (pool_submit env (history s ++ [Waited handler]) (handler_itself handler))
      as [e|] eqn:Hp; cbn [history self].
    { eexists _, _, [Waited handler; Rejected (handler_itself handler) e].
      split; [reflexivity|]. simpl. rewrite <- app_assoc.
      repeat split; auto. left. by exists [Waited handler]. }
    match goal with |- context [check_loop env depth handler ?s1] =>
      destruct (IH s1) as (r & s' & evs & Hrun & Hhist & Hconf & Hres) end.
    simpl in *.
    exists r, s', (Waited handler :: Submitted (handler_itself handler) :: evs).
    split; [done|]. split; [by rewrite Hhist, <- !app_assoc|].
    split; [done|].
    unfold resolution in *. simpl in *.
    destruct r as [[|]|e]; simpl in *.
    + done.
    + destruct Hres as (? & ? & ?). repeat split; auto. lia.
    + destruct Hres as (? & [(evs0 & ->)|Hdepth]); split; auto.
      * left. by exists (Waited handler :: Submitted (handler_itself handler) :: evs0).
      * right. unfold retries_left in *. simpl in *. lia.
Qed.

(** The depth that [_check_if_download_successful] allows is never used up:
    an exception out of it is a rejected resubmission. *)
Lemma check_if_download_successful_spec handler s :
  ∃ r s' evs,
    _check_if_download_successful env handler s = (r, s') ∧
    history s' = history s ++ evs ∧
    same_configuration (self s) (self s') ∧
    resolution env handler False s r s' evs.
Proof.
  unfold _check_if_download_successful, bind, gets.
  destruct (check_loop_spec handler (retry_depth (self s)) s)
    as (r & s' & evs & Hrun & Hhist & Hconf & Hres).
  exists r, s', evs. repeat split; try apply Hconf; try done.
  unfold resolution in *. destruct r as [[|]|e]; try done.
  destruct Hres as (? & [?|Hdepth]); split; auto.
  unfold retry_depth, retries_left in *. lia.
Qed.

End Resolve.

(** ** The whole call *)

Section Fetch.

Variable env : Environment.

Lemma after_scheduling_spec next_row_index s :
  ∃ pre post evs,
    filter (still_needed next_row_index) (download_handlers (self s)) = pre ++ post ∧
    after_scheduling env next_row_index s
    = with_handlers ((scheduled_now <$> pre) ++ post) (extend s evs) ∧
    match post with
    | [] => Forall is_Submitted evs
    | h :: _ =>
        is_download_scheduled h = false ∧
        ∃ e evs0, evs = evs0 ++ [Rejected (handler_run h) e; Logged e] ∧
                  Forall is_Submitted evs0 ∧
                  pool_submit env (history s ++ evs0) (handler_run h) = Some e
    end.
Proof.
  unfold after_scheduling, bind. rewrite remove_past_handlers_spec.
  match goal with |- context [_schedule_downloads env ?s1] =>
    destruct (schedule_downloads_spec env s1) as (pre & post & evs & Heq & Hrun & Hpost)
  end.
  exists pre, post, evs. split; [done|]. split; [|done].
  by rewrite Hrun.
Qed.

Lemma after_scheduling_run next_row_index s :
  (_remove_past_handlers next_row_index ;; _schedule_downloads env) s
  = (Returns tt, after_scheduling env next_row_index s).
Proof.
  unfold after_scheduling, bind. rewrite remove_past_handlers_spec.
  match goal with |- context [_schedule_downloads env ?s1] =>
    destruct (schedule_downloads_spec env s1) as (pre & post & evs & Heq & Hrun & Hpost)
  end.
  by rewrite Hrun.
Qed.

Lemma located_spec next_row_index s :
  located env next_row_index s
  = fst <$> list_find (wanted next_row_index)
              (download_handlers (self (after_scheduling env next_row_index s))).
Proof. unfold located. by rewrite find_next_file_index_spec. Qed.

Lemma located_Some next_row_index s idx :
  located env next_row_index s = Some idx →
  ∃ handler,
    download_handlers (self (after_scheduling env next_row_index s)) !! idx = Some handler ∧
    wanted next_row_index handler ∧
    ∀ j h, download_handlers (self (after_scheduling env next_row_index s)) !! j = Some h →
           (j < idx)%nat → ¬ wanted next_row_index h.
Proof.
  rewrite located_spec. intros Hloc.
  destruct (list_find _ _) as [[i h]|] eqn:Hfind; [|done].
  simpl in Hloc. injection Hloc as ->.
  apply list_find_Some in Hfind as (Hi & Hw & Hfirst).
  exists h. repeat split; try done; apply Hw.
Qed.

Lemma located_None next_row_index s :
  located env next_row_index s = None →
  Forall (λ h, ¬ wanted next_row_index h)
    (download_handlers (self (after_scheduling env next_row_index s))).
Proof.
  rewrite located_spec. intros Hloc.
  destruct (list_find _ _) as [[i h]|] eqn:Hfind; [done|].
  by apply list_find_None in Hfind.
Qed.

(** The call, case by case. *)
Lemma get_next_downloaded_file_spec next_row_index s :
  let s2 := after_scheduling env next_row_index s in
  match download_handlers (self s), located env next_row_index s with
  | [], _ => get_next_downloaded_file env next_row_index s = (Returns None, s)
  | _ :: _, None => get_next_downloaded_file env next_row_index s = (Returns None, s2)
  | _ :: _, Some idx =>
      ∃ handler r s3 evs,
        download_handlers (self s2) !! idx = Some handler ∧
        wanted next_row_index handler ∧
        _check_if_download_successful env handler s2 = (r, s3) ∧
        history s3 = history s2 ++ evs ∧
        same_configuration (self s2) (self s3) ∧
        resolution env handler False s2 r s3 evs ∧
        get_next_downloaded_file env next_row_index s
        = match r with
          | Returns true => (Returns (Some (downloaded_file env handler s3)),
                             delivered idx handler s3)
          | Returns false => (Returns None, s3)
          | Raises e => (Raises e, s3)
          end
  end.
Proof.
  intros s2.
  destruct (download_handlers (self s)) as [|h0 hs0] eqn:Hhs.
  { unfold get_next_downloaded_file, bind, gets, ret. by rewrite Hhs. }
  pose proof (after_scheduling_run next_row_index s) as Hrun.
  destruct (located env next_row_index s) as [idx|] eqn:Hloc.
  - destruct (located_Some _ _ _ Hloc) as (handler & Hidx & Hw & _).
    destruct (check_if_download_successful_spec env handler s2)
      as (r & s3 & evs & Hcheck & Hhist & Hconf & Hres).
    exists handler, r, s3, evs. repeat split; try done; try apply Hw; try apply Hconf.
    unfold located in Hloc. fold s2 in Hloc, Hrun, Hidx.
    destruct (_find_next_file_index next_row_index s2) as [[oidx|e] s2'] eqn:Hfind;
      [|done].
    rewrite find_next_file_index_spec in Hfind. injection Hfind as Hoidx Hs2'.
    subst oidx. 
    unfold get_next_downloaded_file.
    unfold bind at 1. unfold gets at 1. rewrite Hhs.
    unfold bind in Hrun.
    unfold bind at 1.
    destruct (_remove_past_handlers next_row_index s) as [[[]|e1] s1]; [|done].
    unfold bind at 1.
    destruct (_schedule_downloads env s1) as [[[]|e2] s2'']; [|done].
    injection Hrun as ->.
    unfold bind at 1. rewrite find_next_file_index_spec.
    rewrite Hloc.
    unfold bind at 1. unfold list_item, bind at 1, gets at 1. rewrite Hidx.
    unfold ret at 1. unfold bind at 1. rewrite Hcheck.
    destruct r as [[|]|e]; try done.
    unfold observe, bind, modify, list_pop, gets, ret. simpl.
    destruct Hres as (Hsame & _). unfold bind, delivered, downloaded_file. simpl.
    by rewrite Hsame, Hidx.
  - unfold located in Hloc. fold s2 in Hloc, Hrun.
    unfold get_next_downloaded_file.
    unfold bind at 1. unfold gets at 1. rewrite Hhs.
    unfold bind in Hrun. unfold bind at 1.
    destruct (_remove_past_handlers next_row_index s) as [[[]|e1] s1]; [|done].
    unfold bind at 1.
    destruct (_schedule_downloads env s1) as [[[]|e2] s2'']; [|done].
    injection Hrun as ->.
    unfold bind at 1.
    destruct (_find_next_file_index next_row_index s2) as [[oidx|e] s2'] eqn:Hfind.
    + rewrite find_next_file_index_spec in Hfind. injection Hfind as <- <-.
      by rewrite Hloc.
    + by rewrite find_next_file_index_spec in Hfind.
Qed.

End Fetch.

(** ** One turn of the resolution *)

Section ResolveStep.

Variable env : Environment.

Lemma check_loop_step depth handler s :
  check_loop env (S depth) handler s
  = match observed_outcome env handler s with
    | Success =>
        (Returns true,
         {| self := set_fetch_need_retry false
                      (set_num_consecutive_result_file_download_retries 0 (self s));
            history := history (waited handler s) |})
    | Expired =>
        (Returns false,
         {| self := set_fetch_need_retry true (set_download_handlers [] (self s));
            history := history (waited handler s) |})
    | TimedOut =>
        if decide (budget_exhausted (self s)) then
          (Returns false,
           {| self := set_fetch_need_retry true (self s);
              history := history (waited handler s) |})
        else
          match pool_submit env (history (waited handler s)) (handler_itself handler) with
          | Some e =>
              (Raises e,
               {| self := set_num_consecutive_result_file_download_retries
                            (num_consecutive_result_file_download_retries (self s) + 1)
                            (self s);
                  history := history (waited handler s)
                             ++ [Rejected (handler_itself handler) e] |})
          | None => check_loop env depth handler (retried handler s)
          end
    | Failed =>
        (Returns false,
         {| self := set_fetch_need_retry true (self s);
            history := history (waited handler s) |})
    end.
Proof.
  unfold observed_outcome, outcome, waited, extend. cbn [history self].
  cbn [check_loop]. run_monad.
  destruct (handler_state env (history s ++ [Waited handler]) handler)
    as [ok expired timedout file] eqn:Hobs.
  destruct ok; simpl; rewrite ?Hobs; simpl; [done|].
  destruct expired; simpl; rewrite ?Hobs; simpl; [done|].
  destruct timedout; simpl; rewrite ?Hobs; simpl; [|done].
  unfold budget_exhausted.
  destruct (Z.geb_spec (num_consecutive_result_file_download_retries (self s))
              (max_consecutive_file_download_retries
                 (downloadable_result_settings (self s)))) as [Hge|Hlt];
    case_decide; try lia; [done|].
  cbn [history self].
  destruct (pool_submit env (history s ++ [Waited handler]) (handler_itself handler))
    as [e|] eqn:Hp; cbn [history self]; [done|].
  unfold retried. by rewrite <- app_assoc.
Qed.

Lemma check_if_download_successful_unfold handler s :
  _check_if_download_successful env handler s
  = check_loop env (retry_depth (self s)) handler s.
Proof. done. Qed.

End ResolveStep.

(** ** Frame facts *)

Section Frame.

Variable env : Environment.

Lemma after_scheduling_frame next_row_index s :
  same_configuration (self s) (self (after_scheduling env next_row_index s)) ∧
  fetch_need_retry (self (after_scheduling env next_row_index s))
  = fetch_need_retry (self s) ∧
  num_consecutive_result_file_download_retries (self (after_scheduling env next_row_index s))
  = num_consecutive_result_file_download_retries (self s) ∧
  result_link <$> download_handlers (self (after_scheduling env next_row_index s))
  = result_link <$> filter (still_needed next_row_index) (download_handlers (self s)).
Proof.
  destruct (after_scheduling_spec env next_row_index s)
    as (pre & post & evs & Heq & -> & _).
  unfold same_configuration. simpl. repeat split.
  rewrite Heq, !fmap_app. f_equal.
  rewrite <- list_fmap_compose. apply list_fmap_ext. intros _ h _. simpl.
  apply scheduled_now_link.
Qed.

Lemma resolution_handlers handler s r s' evs :
  resolution env handler False s r s' evs →
  download_handlers (self s') = download_handlers (self s)
  ∨ download_handlers (self s') = [].
Proof.
  unfold resolution. destruct r as [[|]|e].
  - intros (? & _). by left.
  - intros (_ & _ & H). destruct (outcome _); intuition.
  - intros (? & _). by left.
Qed.

End Frame.

(** * The claims *)

(** C9. [add_file_links] appends one handle, in the order given, for each
    link with a positive [rowCount] and none for the others; in particular
    links with [rowCount = 0] leave the pending handlers as they were. *)
Theorem add_file_links_skips_empty_links
    (links : list TSparkArrowResultLink) (next_row_index : Z) (s : State) :
  download_handlers (self (snd (add_file_links links next_row_index s)))
  = download_handlers (self s)
    ++ (new_handler (downloadable_result_settings (self s)) <$> filter has_rows links) ∧
  download_handlers
    (self (snd (add_file_links (filter zero_rows links) next_row_index s)))
  = download_handlers (self s).
Proof.
  unfold add_file_links, modify. simpl. rewrite !add_file_links_loop_spec.
  split; [done|].
  rewrite list_filter_filter.
  replace (filter _ links) with (@nil TSparkArrowResultLink).
  { by rewrite app_nil_r. }
  symmetry. induction links as [|l links IH]; [done|].
  rewrite filter_cons_False; [done|]. unfold has_rows, zero_rows. lia.
Qed.

(** C3. After [get_next_downloaded_file(R)], whatever it returned or
    raised, no pending handle has [startRowOffset + rowCount <= R]. *)
Theorem get_next_downloaded_file_evicts
    (env : Environment) (next_row_index : Z) (s : State) :
  Forall (λ h, ¬ past next_row_index h)
    (download_handlers (self (snd (get_next_downloaded_file env next_row_index s)))).
Proof.
  assert (Hs2 : Forall (λ h, ¬ past next_row_index h)
                  (download_handlers (self (after_scheduling env next_row_index s)))).
  { destruct (after_scheduling_frame env next_row_index s) as (_ & _ & _ & Hlinks).
    apply Forall_forall. intros h Hh.
    assert (Hl : result_link h ∈ result_link <$>
              filter (still_needed next_row_index) (download_handlers (self s))).
    { rewrite <- Hlinks. by apply list_elem_of_fmap_2. }
    apply list_elem_of_fmap in Hl as (h' & Heq & Hin).
    apply list_elem_of_filter in Hin as (Hneed & _).
    unfold past, still_needed in *. rewrite Heq. lia. }
  pose proof (get_next_downloaded_file_spec env next_row_index s) as Hspec.
  simpl in Hspec.
  destruct (download_handlers (self s)) as [|h0 hs0] eqn:Hhs.
  { rewrite Hspec. simpl. by rewrite Hhs. }
  destruct (located env next_row_index s) as [idx|].
  - destruct Hspec as (handler & r & s3 & evs & Hidx & Hw & Hcheck & Hhist & Hconf
                       & Hres & ->).
    pose proof (resolution_handlers _ _ _ _ _ _ Hres) as Hhandlers.
    destruct r as [[|]|e]; simpl.
    + destruct Hres as (-> & _). by apply Forall_delete.
    + destruct Hhandlers as [-> | ->]; [done | constructor].
    + destruct Hhandlers as [-> | ->]; [done | constructor].
  - by rewrite Hspec.
Qed.

(** C2. When [get_next_downloaded_file(R)] returns a file, the file starts
    at row R and has the row count of the located handle's link; that
    handle is popped from the pending handlers, [cloud_fetch_index] has
    grown by that row count, [fetch_need_retry] is false and the retry
    counter is zero. *)
Theorem get_next_downloaded_file_delivers
    (env : Environment) (next_row_index : Z) (s : State) (file : DownloadedFile) (s' : State) :
  get_next_downloaded_file env next_row_index s = (Returns (Some file), s') →
  ∃ idx handler,
    located env next_row_index s = Some idx ∧
    download_handlers (self (after_scheduling env next_row_index s)) !! idx
    = Some handler ∧
    is_download_scheduled handler = true ∧
    startRowOffset (result_link handler) = next_row_index ∧
    start_row_offset file = next_row_index ∧
    row_count file = rowCount (result_link handler) ∧
    download_handlers (self s')
    = delete idx (download_handlers (self (after_scheduling env next_row_index s))) ∧
    cloud_fetch_index (self s')
    = cloud_fetch_index (self s) + rowCount (result_link handler) ∧
    fetch_need_retry (self s') = false ∧
    num_consecutive_result_file_download_retries (self s') = 0.
Proof.
  intros Hrun.
  pose proof (get_next_downloaded_file_spec env next_row_index s) as Hspec.
  simpl in Hspec.
  destruct (after_scheduling_frame env next_row_index s) as ((_ & _ & Hcursor) & _).
  destruct (download_handlers (self s)) as [|h0 hs0]; [congruence|].
  destruct (located env next_row_index s) as [idx|]; [|congruence].
  destruct Hspec as (handler & r & s3 & evs & Hidx & (Hsched & Hstart) & Hcheck & Hhist
                     & (_ & _ & Hcursor') & Hres & Hget).
  rewrite Hget in Hrun.
  destruct r as [[|]|e]; try congruence.
  injection Hrun as <- <-.
  destruct Hres as (Hsame & Hretry & Hcount & _).
  exists idx, handler. simpl. rewrite Hsame, Hcursor', Hcursor.
  by repeat split.
Qed.

Lemma get_next_downloaded_file_delivers_witness :
  ∃ idx handler,
    located all_succeed 0 two_links = Some idx ∧
    download_handlers (self (after_scheduling all_succeed 0 two_links)) !! idx
    = Some handler ∧
    is_download_scheduled handler = true ∧
    startRowOffset (result_link handler) = 0 ∧
    0 = 0 ∧
    10 = rowCount (result_link handler) ∧
    download_handlers (self (snd delivery_of_first_link))
    = delete idx (download_handlers (self (after_scheduling all_succeed 0 two_links))) ∧
    cloud_fetch_index (self (snd delivery_of_first_link))
    = cloud_fetch_index (self two_links) + rowCount (result_link handler) ∧
    fetch_need_retry (self (snd delivery_of_first_link)) = false ∧
    num_consecutive_result_file_download_retries (self (snd delivery_of_first_link)) = 0.
Proof.
  apply (get_next_downloaded_file_delivers all_succeed 0 two_links
           {| file_bytes := [x2a]; start_row_offset := 0; row_count := 10 |}
           (snd delivery_of_first_link)).
  vm_compute. reflexivity.
Defined.

(** What [_find_next_file_index] returns. It never raises: among the
    scheduled handles that start at the requested row it returns the
    index of the first one in pending order, and [None] when there is none. *)
Lemma find_next_file_index_takes_first (next_row_index : Z) (s : State) :
  ∃ found,
    _find_next_file_index next_row_index s = (Returns found, s) ∧
    match found with
    | Some idx =>
        ∃ handler,
          download_handlers (self s) !! idx = Some handler ∧
          wanted next_row_index handler ∧
          Forall (λ h, ¬ wanted next_row_index h) (take idx (download_handlers (self s)))
    | None => Forall (λ h, ¬ wanted next_row_index h) (download_handlers (self s))
    end.
Proof.
  rewrite find_next_file_index_spec. eexists. split; [reflexivity|].
  destruct (list_find _ _) as [[idx h]|] eqn:Hfind; simpl.
  - apply list_find_Some in Hfind as (Hidx & Hw & Hfirst).
    exists h. repeat split; try done; try apply Hw.
    apply Forall_forall. intros h' Hin.
    apply list_elem_of_lookup in Hin as (j & Hj).
    apply lookup_take_Some in Hj as (Hj & Hlt). eauto.
  - by apply list_find_None in Hfind.
Qed.





(** ** Managers built by the constructor and the public methods *)

Section Lifetime.

Variable env : Environment.

Lemma pending_have_rows_links s s' :
  (∀ l, l ∈ result_link <$> download_handlers (self s') →
        l ∈ result_link <$> download_handlers (self s)) →
  pending_have_rows s → pending_have_rows s'.
Proof.
  unfold pending_have_rows. rewrite !Forall_forall. intros Hsub Hs h Hh.
  assert (Hl : result_link h ∈ result_link <$> download_handlers (self s)).
  { apply Hsub. by apply list_elem_of_fmap_2. }
  apply list_elem_of_fmap in Hl as (h' & -> & Hin). by apply Hs.
Qed.

Lemma after_scheduling_rows next_row_index s :
  pending_have_rows s → pending_have_rows (after_scheduling env next_row_index s).
Proof.
  apply pending_have_rows_links. intros l.
  destruct (after_scheduling_frame env next_row_index s) as (_ & _ & _ & ->).
  rewrite !list_elem_of_fmap. intros (h & -> & Hin).
  apply list_elem_of_filter in Hin as (_ & Hin). eauto.
Qed.

(** What one call does to the pending handles and to [cloud_fetch_index]. *)
Lemma get_next_downloaded_file_rows next_row_index s :
  pending_have_rows s →
  pending_have_rows (snd (get_next_downloaded_file env next_row_index s)) ∧
  cloud_fetch_index (self s)
  ≤ cloud_fetch_index (self (snd (get_next_downloaded_file env next_row_index s))).
Proof.
  intros Hrows.
  pose proof (after_scheduling_rows next_row_index s Hrows) as Hrows2.
  destruct (after_scheduling_frame env next_row_index s) as ((_ & _ & Hcursor) & _).
  pose proof (get_next_downloaded_file_spec env next_row_index s) as Hspec.
  simpl in Hspec.
  destruct (download_handlers (self s)) as [|h0 hs0] eqn:Hhs.
  { rewrite Hspec. simpl. split; [done | lia]. }
  destruct (located env next_row_index s) as [idx|].
  2:{ rewrite Hspec. simpl. split; [done | lia]. }
  destruct Hspec as (handler & r & s3 & evs & Hidx & _ & _ & _ & (_ & _ & Hcursor')
                     & Hres & ->).
  pose proof (resolution_handlers _ _ _ _ _ _ Hres) as Hhandlers.
  assert (Hrows3 : pending_have_rows s3).
  { unfold pending_have_rows in *. destruct Hhandlers as [-> | ->]; [done|constructor]. }
  destruct r as [[|]|e]; simpl; try (split; [done | lia]).
  destruct Hres as (Hsame & _).
  unfold pending_have_rows in *. simpl. rewrite Hsame. split.
  - by apply Forall_delete.
  - rewrite Forall_forall in Hrows2.
    assert (has_rows (result_link handler)).
    { apply Hrows2. by eapply list_elem_of_lookup_2. }
    unfold has_rows in *. lia.
Qed.

Lemma add_file_links_rows links next_row_index s :
  pending_have_rows s → pending_have_rows (snd (add_file_links links next_row_index s)).
Proof.
  unfold pending_have_rows, add_file_links, modify. simpl.
  rewrite add_file_links_loop_spec. intros Hrows.
  apply Forall_app. split; [done|].
  apply Forall_fmap, Forall_forall. intros l Hl. simpl.
  by apply list_elem_of_filter in Hl as (? & _).
Qed.

Lemma run_rows calls :
  ∀ s, pending_have_rows s → pending_have_rows (run env calls s).
Proof.
  induction calls as [|c calls IH]; intros s Hrows; [done|].
  simpl. apply IH. destruct c; simpl.
  - by apply add_file_links_rows.
  - by apply get_next_downloaded_file_rows.
Qed.

End Lifetime.

(** C7, as the code has it. Over the lifetime of a manager,
    [get_next_downloaded_file] never makes [cloud_fetch_index] smaller,
    and [add_file_links] stores the index it is given, whatever the
    stored one was. *)
Theorem cloud_fetch_index_follows_calls
    (env : Environment) (max_download_threads : Z) (lz4_compressed : bool)
    (calls : list Call) :
  (∀ next_row_index,
     cloud_fetch_index (self (run env calls (created max_download_threads lz4_compressed)))
     ≤ cloud_fetch_index
         (self (perform env (run env calls (created max_download_threads lz4_compressed))
                  (FetchNext next_row_index)))) ∧
  (∀ links next_row_index,
     cloud_fetch_index
       (self (perform env (run env calls (created max_download_threads lz4_compressed))
                (Register links next_row_index)))
     = next_row_index).
Proof.
  split; [|done].
  intros next_row_index. simpl.
  apply get_next_downloaded_file_rows, run_rows. constructor.
Qed.

(** C7 fails as stated: registering with index 10 and then with index 5
    takes the stored index from 10 down to 5. *)
Lemma add_file_links_can_lower_index :
  cloud_fetch_index
    (self (perform all_succeed (run all_succeed [Register [link "a" 0 10] 10] fresh)
             (Register [] 5)))
  < cloud_fetch_index (self (run all_succeed [Register [link "a" 0 10] 10] fresh)).
Proof. by vm_compute. Qed.

(** ** Resolutions that give up *)

Section GivingUp.

Variable env : Environment.

Lemma resubmissions_app evs evs' :
  resubmissions (evs ++ evs') = resubmissions evs ++ resubmissions evs'.
Proof. apply omap_app. Qed.

Lemma resubmissions_retry_events n handler :
  resubmissions (retry_events n handler) = replicate n handler.
Proof. induction n as [|n IH]; [done|]. simpl. by rewrite <- IH. Qed.

Lemma resubmissions_scheduling evs :
  Forall is_Submitted evs → resubmissions evs = [].
Proof.
  induction 1 as [|ev evs Hev _ IH]; [done|].
  destruct ev as [[h|h]| | |]; try done.
Qed.

Lemma check_loop_gives_up handler n s :
  gives_up env handler n s →
  ∀ depth, (retries_left (self s) < depth)%nat →
  ∃ s',
    check_loop env depth handler s = (Returns false, s') ∧
    history s' = history s ++ retry_events n handler ∧
    download_handlers (self s') = download_handlers (self s) ∧
    same_configuration (self s) (self s') ∧
    fetch_need_retry (self s') = true ∧
    num_consecutive_result_file_download_retries (self s')
    = num_consecutive_result_file_download_retries (self s) + Z.of_nat n.
Proof.
  induction 1 as [s Hobs | s Hobs Hbudget | n s Hobs Hbudget Hpool _ IH];
    intros [|depth] Hdepth; try lia; rewrite check_loop_step, Hobs.
  - eexists. split; [reflexivity|]. simpl.
    unfold same_configuration. repeat split; auto. lia.
  - rewrite decide_True by done.
    eexists. split; [reflexivity|]. simpl.
    unfold same_configuration. repeat split; auto. lia.
  - rewrite decide_False by done. rewrite Hpool.
    destruct (IH depth) as (s' & Hrun & Hhist & Hsame & Hconf & Hretry & Hcount).
    { unfold retries_left, budget_exhausted in *. simpl. lia. }
    exists s'. split; [done|]. simpl in *.
    split; [by rewrite Hhist, <- app_assoc|].
    repeat split; try done; try apply Hconf. lia.
Qed.

End GivingUp.

Section Scheduled.

Variable env : Environment.

(** Scheduling resubmits nothing. *)
Lemma after_scheduling_history next_row_index s :
  ∃ evs, history (after_scheduling env next_row_index s) = history s ++ evs ∧
         resubmissions evs = [].
Proof.
  destruct (after_scheduling_spec env next_row_index s)
    as (pre & post & evs & _ & -> & Hpost).
  exists evs. split; [done|].
  destruct post as [|h post].
  - by apply resubmissions_scheduling.
  - destruct Hpost as (_ & e & evs0 & -> & Hsub & _).
    rewrite resubmissions_app, resubmissions_scheduling by done. done.
Qed.

Lemma always_timed_out_gives_up handler :
  (∀ hist, outcome (handler_state env hist handler) = TimedOut) →
  (∀ hist, pool_submit env hist (handler_itself handler) = None) →
  ∀ n s, retries_left (self s) = n → gives_up env handler n s.
Proof.
  intros Hout Hpool. induction n as [|n IH]; intros s Hleft.
  - apply gives_up_exhausted; [apply Hout|].
    unfold retries_left, budget_exhausted in *. lia.
  - apply gives_up_retried; [apply Hout | | apply Hpool | apply IH].
    + unfold retries_left, budget_exhausted in *. lia.
    + unfold retries_left in *. simpl. lia.
Qed.

Lemma located_handler_Some next_row_index s handler :
  located_handler env next_row_index s = Some handler →
  download_handlers (self s) ≠ [] ∧
  ∃ idx, located env next_row_index s = Some idx ∧
         download_handlers (self (after_scheduling env next_row_index s)) !! idx
         = Some handler.
Proof.
  unfold located_handler.
  destruct (download_handlers (self s)); [done|].
  destruct (located env next_row_index s) as [idx|]; [|done].
  intros Hidx. split; [done|]. by exists idx.
Qed.

(** The call when the resolution of the located handle gives up. *)
Lemma get_next_downloaded_file_gives_up next_row_index s handler n :
  located_handler env next_row_index s = Some handler →
  gives_up env handler n (after_scheduling env next_row_index s) →
  ∃ s',
    get_next_downloaded_file env next_row_index s = (Returns None, s') ∧
    history s' = history (after_scheduling env next_row_index s) ++ retry_events n handler ∧
    download_handlers (self s')
    = download_handlers (self (after_scheduling env next_row_index s)) ∧
    same_configuration (self s) (self s') ∧
    fetch_need_retry (self s') = true ∧
    num_consecutive_result_file_download_retries (self s')
    = num_consecutive_result_file_download_retries (self s) + Z.of_nat n.
Proof.
  intros Hloc Hgives.
  apply located_handler_Some in Hloc as (Hne & idx & Hloc & Hidx).
  pose proof (get_next_downloaded_file_spec env next_row_index s) as Hspec.
  simpl in Hspec.
  destruct (after_scheduling_frame env next_row_index s)
    as ((Hpool & Hsettings & Hcursor) & _ & Hretries & _).
  destruct (download_handlers (self s)) as [|h0 hs0]; [done|].
  rewrite Hloc in Hspec.
  destruct Hspec as (handler' & r & s3 & evs & Hidx' & _ & Hcheck & _ & _ & _ & ->).
  rewrite Hidx in Hidx'. injection Hidx' as <-.
  rewrite check_if_download_successful_unfold in Hcheck.
  destruct (check_loop_gives_up env handler n _ Hgives
              (retry_depth (self (after_scheduling env next_row_index s))))
    as (s' & Hrun & Hhist & Hsame & (Hpool' & Hsettings' & Hcursor') & Hretry & Hcount).
  { unfold retry_depth, retries_left. lia. }
  rewrite Hrun in Hcheck. injection Hcheck as <- <-.
  exists s'. unfold same_configuration. repeat split; try done; congruence.
Qed.

End Scheduled.

(** C10. When the located handle resolves to a failure that is not an
    expiry, or to a timeout with the retry budget used up (in both cases
    possibly after [n] timeouts that were retried), the call returns
    [None]; the pending handles are those left by eviction and scheduling,
    the located one among them; [cloud_fetch_index], the settings and the
    pool are untouched; [fetch_need_retry] is set and the retry counter has
    grown by [n]. *)
Theorem failed_resolution_keeps_pending
    (env : Environment) (next_row_index : Z) (s : State)
    (handler : ResultSetDownloadHandler) (n : nat) :
  located_handler env next_row_index s = Some handler →
  gives_up env handler n (after_scheduling env next_row_index s) →
  ∃ s',
    get_next_downloaded_file env next_row_index s = (Returns None, s') ∧
    download_handlers (self s')
    = download_handlers (self (after_scheduling env next_row_index s)) ∧
    handler ∈ download_handlers (self s') ∧
    cloud_fetch_index (self s') = cloud_fetch_index (self s) ∧
    downloadable_result_settings (self s') = downloadable_result_settings (self s) ∧
    thread_pool (self s') = thread_pool (self s) ∧
    fetch_need_retry (self s') = true ∧
    num_consecutive_result_file_download_retries (self s')
    = num_consecutive_result_file_download_retries (self s) + Z.of_nat n.
Proof.
  intros Hloc Hgives.
  destruct (get_next_downloaded_file_gives_up env _ _ _ _ Hloc Hgives)
    as (s' & Hrun & _ & Hsame & (Hpool & Hsettings & Hcursor) & Hretry & Hcount).
  apply located_handler_Some in Hloc as (_ & idx & _ & Hidx).
  exists s'. repeat split; try done.
  rewrite Hsame. by eapply list_elem_of_lookup_2.
Qed.

Lemma failed_resolution_keeps_pending_witness :
  ∃ s',
    get_next_downloaded_file times_out_once 0 (patient 1) = (Returns None, s') ∧
    download_handlers (self s')
    = download_handlers (self (after_scheduling times_out_once 0 (patient 1))) ∧
    patient_handler 1 ∈ download_handlers (self s') ∧
    cloud_fetch_index (self s') = cloud_fetch_index (self (patient 1)) ∧
    downloadable_result_settings (self s') = downloadable_result_settings (self (patient 1)) ∧
    thread_pool (self s') = thread_pool (self (patient 1)) ∧
    fetch_need_retry (self s') = true ∧
    num_consecutive_result_file_download_retries (self s')
    = num_consecutive_result_file_download_retries (self (patient 1)) + Z.of_nat 1.
Proof.
  apply (failed_resolution_keeps_pending times_out_once 0 (patient 1) (patient_handler 1) 1).
  - vm_compute. reflexivity.
  - apply gives_up_retried.
    + vm_compute. reflexivity.
    + unfold budget_exhausted. simpl. lia.
    + reflexivity.
    + apply gives_up_failed. vm_compute. reflexivity.
Defined.

(** C5. If the outcome of the located handle is always TimedOut, a call
    that starts with the retry counter at zero resubmits that handle
    exactly [max_consecutive_file_download_retries] times (the pool taking
    each resubmission), then sets [fetch_need_retry] and returns [None]. *)
Theorem timed_out_handle_uses_retry_budget
    (env : Environment) (next_row_index : Z) (s : State)
    (handler : ResultSetDownloadHandler) :
  located_handler env next_row_index s = Some handler →
  (∀ hist, outcome (handler_state env hist handler) = TimedOut) →
  (∀ hist, pool_submit env hist (handler_itself handler) = None) →
  num_consecutive_result_file_download_retries (self s) = 0 →
  0 ≤ max_consecutive_file_download_retries (downloadable_result_settings (self s)) →
  ∃ s' evs,
    get_next_downloaded_file env next_row_index s = (Returns None, s') ∧
    history s' = history s ++ evs ∧
    fetch_need_retry (self s') = true ∧
    Forall (λ h, h = handler) (resubmissions evs) ∧
    Z.of_nat (length (resubmissions evs))
    = max_consecutive_file_download_retries (downloadable_result_settings (self s)).
Proof.
  intros Hloc Hout Hpool Hzero Hbudget.
  destruct (after_scheduling_frame env next_row_index s)
    as ((_ & Hsettings & _) & _ & Hretries & _).
  destruct (after_scheduling_history env next_row_index s) as (evs & Hhist & Hnone).
  set (n := Z.to_nat (max_consecutive_file_download_retries
                        (downloadable_result_settings (self s)))).
  assert (Hgives : gives_up env handler n (after_scheduling env next_row_index s)).
  { apply always_timed_out_gives_up; try done.
    unfold retries_left. rewrite Hsettings, Hretries, Hzero. unfold n. f_equal. lia. }
  destruct (get_next_downloaded_file_gives_up env _ _ _ _ Hloc Hgives)
    as (s' & Hrun & Hhist' & _ & _ & Hretry & _).
  exists s', (evs ++ retry_events n handler).
  split; [done|]. split; [by rewrite Hhist', Hhist, app_assoc|]. split; [done|].
  rewrite resubmissions_app, Hnone, resubmissions_retry_events. simpl.
  split.
  - apply Forall_forall. intros h Hh. by apply elem_of_replicate in Hh as (-> & _).
  - rewrite length_replicate. unfold n. lia.
Qed.

Lemma timed_out_handle_uses_retry_budget_witness :
  ∃ s' evs,
    get_next_downloaded_file always_times_out 0 (patient 2) = (Returns None, s') ∧
    history s' = history (patient 2) ++ evs ∧
    fetch_need_retry (self s') = true ∧
    Forall (λ h, h = patient_handler 2) (resubmissions evs) ∧
    Z.of_nat (length (resubmissions evs)) = 2.
Proof.
  apply (timed_out_handle_uses_retry_budget always_times_out 0 (patient 2)
           (patient_handler 2)).
  - vm_compute. reflexivity.
  - intros hist. reflexivity.
  - intros hist. reflexivity.
  - reflexivity.
  - simpl. lia.
Defined.

(** ** Rejected submissions *)

Section Rejection.

Variable env : Environment.

Lemma check_loop_events handler depth :
  ∀ s, ∃ evs,
    history (snd (check_loop env depth handler s)) = history s ++ evs ∧
    Forall (is_resolution_event handler) evs.
Proof.
  induction depth as [|depth IH]; intros s.
  - exists []. simpl. by rewrite app_nil_r.
  - rewrite check_loop_step.
    destruct (observed_outcome env handler s);
      try (exists [Waited handler]; split; [done | by repeat constructor]).
    case_decide.
    { exists [Waited handler]. split; [done | by repeat constructor]. }
    destruct (pool_submit env _ _) as [e|].
    + exists [Waited handler; Rejected (handler_itself handler) e]. simpl.
      split; [by rewrite <- app_assoc | by repeat constructor].
    + destruct (IH (retried handler s)) as (evs & -> & Hevs).
      exists (Waited handler :: Submitted (handler_itself handler) :: evs). simpl.
      split; [by rewrite <- app_assoc | by repeat constructor].
Qed.




Lemma Forall_still_needed (P : ResultSetDownloadHandler → Prop) next_row_index handlers :
  Forall P handlers → Forall P (filter (still_needed next_row_index) handlers).
Proof.
  rewrite !Forall_forall. intros Hall h Hin.
  apply list_elem_of_filter in Hin as (_ & Hin). by apply Hall.
Qed.



End Rejection.

Section RejectionClaim.

Variable env : Environment.



End RejectionClaim.



(** ** In-order delivery *)

Lemma filter_keeps_all {A} (P : A → Prop) `{∀ x, Decision (P x)} (l : list A) :
  Forall P l → filter P l = l.
Proof.
  induction 1 as [|x l Hx _ IH]; [done|]. by rewrite filter_cons_True, IH.
Qed.

Lemma tiling_later from to ranges :
  tiling from to ranges → Forall (λ range, from ≤ range.1 ∧ 0 < range.2) ranges.
Proof.
  revert from. induction ranges as [|range ranges IH]; intros from Ht; [done|].
  destruct Ht as (Hstart & Hrows & Ht). constructor; [lia|].
  eapply Forall_impl; [by apply IH|]. simpl. intros; lia.
Qed.

Lemma tiling_app from to ranges ranges' mid :
  tiling from mid ranges → tiling mid to ranges' → tiling from to (ranges ++ ranges').
Proof.
  revert from. induction ranges as [|range ranges IH]; intros from; simpl.
  - by intros ->.
  - intros (? & ? & ?) ?. repeat split; auto.
Qed.

Section Delivery.

Variable env : Environment.
Hypothesis pool_accepts : ∀ hist w, pool_submit env hist w = None.
Hypothesis downloads_succeed : ∀ hist h, outcome (handler_state env hist h) = Success.

Lemma after_scheduling_accepting next_row_index s :
  download_handlers (self (after_scheduling env next_row_index s))
  = scheduled_now <$> filter (still_needed next_row_index) (download_handlers (self s)).
Proof.
  unfold after_scheduling, bind. rewrite remove_past_handlers_spec.
  match goal with |- context [_schedule_downloads env ?s1] =>
    destruct (schedule_downloads_accepting env s1 pool_accepts) as (evs & ->)
  end.
  done.
Qed.

(** With downloads that succeed, the located handle is delivered. *)
Lemma get_next_downloaded_file_success next_row_index s idx handler :
  download_handlers (self s) ≠ [] →
  located env next_row_index s = Some idx →
  download_handlers (self (after_scheduling env next_row_index s)) !! idx = Some handler →
  ∃ file s',
    get_next_downloaded_file env next_row_index s = (Returns (Some file), s') ∧
    range_of_file file = range_of_link (result_link handler) ∧
    download_handlers (self s')
    = delete idx (download_handlers (self (after_scheduling env next_row_index s))).
Proof.
  intros Hne Hloc Hidx.
  pose proof (get_next_downloaded_file_spec env next_row_index s) as Hspec.
  simpl in Hspec.
  destruct (download_handlers (self s)) as [|h0 hs0]; [done|].
  rewrite Hloc in Hspec.
  destruct Hspec as (handler' & r & s3 & evs & Hidx' & _ & Hcheck & _ & _ & _ & ->).
  rewrite Hidx in Hidx'. injection Hidx' as <-.
  rewrite check_if_download_successful_unfold in Hcheck.
  unfold retry_depth in Hcheck. rewrite check_loop_step in Hcheck.
  unfold observed_outcome in Hcheck. rewrite downloads_succeed in Hcheck.
  injection Hcheck as <- <-. by eexists _, _.
Qed.

(** One fetch at the start of [rest]. *)
Lemma get_next_downloaded_file_on_tiling N s from rest future :
  tiling from N (range_of_link <$> rest) →
  pending_links s ++ future ≡ₚ rest →
  (∃ s',
     get_next_downloaded_file env from s = (Returns None, s') ∧
     pending_links s' = pending_links s ∧
     (future = [] → rest = []))
  ∨
  (∃ file s' head rest',
     get_next_downloaded_file env from s = (Returns (Some file), s') ∧
     rest = head :: rest' ∧
     range_of_file file = range_of_link head ∧
     pending_links s' ++ future ≡ₚ rest').
Proof.
  intros Htiling Hperm. unfold pending_links in *.
  assert (Hrest : ∀ l, l ∈ rest → from ≤ startRowOffset l ∧ 0 < rowCount l).
  { intros l Hl. apply tiling_later in Htiling. rewrite Forall_fmap, Forall_forall in Htiling.
    by apply Htiling in Hl. }
  assert (Hpending : ∀ h, h ∈ download_handlers (self s) → result_link h ∈ rest).
  { intros h Hh. rewrite <- Hperm. apply elem_of_app. left. by apply list_elem_of_fmap_2. }
  assert (Hkeep : filter (still_needed from) (download_handlers (self s))
                  = download_handlers (self s)).
  { apply filter_keeps_all, Forall_forall. intros h Hh.
    apply Hpending, Hrest in Hh. unfold still_needed. lia. }
  pose proof (after_scheduling_accepting from s) as Hs2. rewrite Hkeep in Hs2.
  assert (Hlinks2 : result_link <$> download_handlers (self (after_scheduling env from s))
                    = result_link <$> download_handlers (self s)).
  { rewrite Hs2, <- list_fmap_compose. apply list_fmap_ext. intros _ h _.
    apply scheduled_now_link. }
  destruct (download_handlers (self s)) as [|h0 hs0] eqn:Hhs.
  { left. exists s.
    pose proof (get_next_downloaded_file_spec env from s) as Hspec. simpl in Hspec.
    rewrite Hhs in Hspec. rewrite Hhs. repeat split; try done.
    intros ->. simpl in Hperm. symmetry. by apply Permutation_nil_l. }
  rewrite <- Hhs in *.
  destruct (located env from s) as [idx|] eqn:Hloc.
  - right.
    destruct (located_Some env _ _ _ Hloc) as (handler & Hidx & (_ & Hstart) & _).
    destruct (get_next_downloaded_file_success from s idx handler)
      as (file & s' & Hrun & Hrange & Hs'); try done.
    { by rewrite Hhs. }
    assert (Hlink : (result_link <$> download_handlers (self s)) !! idx
                    = Some (result_link handler)).
    { by rewrite <- Hlinks2, list_lookup_fmap, Hidx. }
    assert (Hin : result_link handler ∈ rest).
    { rewrite <- Hperm. apply elem_of_app. left. by eapply list_elem_of_lookup_2. }
    destruct rest as [|head rest']; [by apply elem_of_nil in Hin|].
    assert (result_link handler = head) as Hhead.
    { apply elem_of_cons in Hin as [Heq|Hin]; [done|].
      destruct Htiling as (Hs0 & Hrows & Htiling). simpl in *.
      apply tiling_later in Htiling. rewrite Forall_fmap, Forall_forall in Htiling.
      apply Htiling in Hin. simpl in Hin. lia. }
    exists file, s', head, rest'. repeat split; try done; [congruence|].
    rewrite Hs', list_fmap_delete, Hlinks2.
    apply (delete_Permutation _ _ _) in Hlink. rewrite Hhead in Hlink.
    rewrite Hlink in Hperm. simpl in Hperm.
    by apply (inj (head ::.)) in Hperm.
  - left. exists (after_scheduling env from s).
    pose proof (get_next_downloaded_file_spec env from s) as Hspec. simpl in Hspec.
    rewrite Hloc in Hspec.
    destruct (download_handlers (self s)) as [|h1 hs1] eqn:Hhs1; [done|].
    rewrite <- Hhs1 in *.
    repeat split; try done.
    intros ->. rewrite app_nil_r in Hperm.
    destruct rest as [|head rest']; [done|]. exfalso.
    assert (Hin : head ∈ result_link <$> download_handlers (self s)).
    { rewrite Hperm. apply list_elem_of_here. }
    apply list_elem_of_fmap in Hin as (h & Hhead & Hin).
    apply located_None in Hloc. rewrite Forall_forall in Hloc.
    apply (Hloc (scheduled_now h)).
    + rewrite Hs2. by apply list_elem_of_fmap_2.
    + split; [apply scheduled_now_scheduled|].
      rewrite scheduled_now_link, <- Hhead. by destruct Htiling as (? & _).
Qed.

End Delivery.

Section Consumer.

Variable env : Environment.
Hypothesis pool_accepts : ∀ hist w, pool_submit env hist w = None.
Hypothesis downloads_succeed : ∀ hist h, outcome (handler_state env hist h) = Success.

Variable N : Z.

Lemma pending_links_add_file_links links next_row_index s :
  pending_links (snd (add_file_links links next_row_index s))
  = pending_links s ++ filter has_rows links.
Proof.
  unfold pending_links, add_file_links, modify. simpl.
  rewrite add_file_links_loop_spec, fmap_app, <- list_fmap_compose.
  f_equal. rewrite <- (list_fmap_id (filter has_rows links)) at 2.
  by apply list_fmap_ext.
Qed.

Lemma step_add_links done rest future links next_row_index c :
  in_step N done rest (filter has_rows links ++ future) c →
  in_step N done rest future (step env c (AddLinks links next_row_index)).
Proof.
  intros (Hreceived & Htiling & Hperm).
  unfold in_step. cbn [step manager cursor received].
  by rewrite pending_links_add_file_links, <- app_assoc.
Qed.

Lemma step_fetch done rest future c :
  in_step N done rest future c →
  ∃ done' rest',
    in_step N done' rest' future (step env c Fetch) ∧
    done' ++ rest' = done ++ rest ∧
    (future = [] → length rest' = pred (length rest)).
Proof.
  intros (Hreceived & Htiling & Hperm).
  destruct (get_next_downloaded_file_on_tiling env pool_accepts downloads_succeed
              N (manager c) (cursor c) rest future Htiling Hperm)
    as [(s' & Hrun & Hlinks & Hnone) | (file & s' & head & rest' & Hrun & -> & Hrange & Hperm')].
  - exists done, rest. unfold in_step, step. rewrite Hrun.
    cbn [manager cursor received]. rewrite Hlinks. repeat split; try done.
    intros Hfuture. by rewrite (Hnone Hfuture).
  - exists (done ++ [head]), rest'. unfold in_step, step. rewrite Hrun.
    cbn [manager cursor received].
    destruct Htiling as (Hstart & Hrows & Htiling).
    injection Hrange as Hfile_start Hfile_rows. cbn [fst snd range_of_link] in *.
    repeat split; try done.
    + rewrite !fmap_app, Hreceived. cbn [fmap list_fmap]. unfold range_of_file, range_of_link.
      by rewrite Hfile_start, Hfile_rows.
    + by rewrite Hfile_start, Hfile_rows, Hstart.
    + by rewrite <- app_assoc.
Qed.

Lemma consume_steps steps :
  ∀ done rest c,
    in_step N done rest (filter has_rows (registered steps)) c →
    ∃ done' rest',
      in_step N done' rest' [] (consume env steps c) ∧ done' ++ rest' = done ++ rest.
Proof.
  induction steps as [|[links next_row_index|] steps IH]; intros done rest c Hc; simpl in *.
  - by exists done, rest.
  - rewrite filter_app in Hc. apply (step_add_links _ _ _ _ next_row_index) in Hc.
    by apply IH.
  - destruct (step_fetch _ _ _ _ Hc) as (done1 & rest1 & Hc1 & Heq1 & _).
    destruct (IH _ _ _ Hc1) as (done2 & rest2 & Hc2 & Heq2).
    exists done2, rest2. split; [done | congruence].
Qed.

Lemma consume_fetches n :
  ∀ done rest c,
    in_step N done rest [] c → (length rest ≤ n)%nat →
    in_step N (done ++ rest) [] [] (consume env (replicate n Fetch) c).
Proof.
  induction n as [|n IH]; intros done rest c Hc Hlen; simpl.
  - destruct rest; [|simpl in Hlen; lia]. by rewrite app_nil_r.
  - destruct (step_fetch _ _ _ _ Hc) as (done1 & rest1 & Hc1 & Heq1 & Hlen1).
    rewrite <- Heq1. apply IH; [done|]. rewrite Hlen1 by done. lia.
Qed.

End Consumer.

(** C1. Let the links registered over the calls of [add_file_links] of a
    session, in whatever batches and order and interleaved with fetches,
    be gap-free and non-overlapping and cover the rows [0, N), let the
    pool take every submission and every download succeed.  A consumer
    that fetches at row 0 and then always at the row after the file it
    last received has, once all links are registered and as many further
    fetches are made as there are links with rows, received files whose
    row ranges tile [0, N): they are the ranges of the registered links,
    each once, in row order; its cursor is N and nothing is pending. *)
Theorem fetches_tile_the_registered_rows
    (env : Environment) (steps : list Step) (N : Z) (n : nat)
    (max_download_threads : Z) (lz4_compressed : bool) :
  (∀ hist w, pool_submit env hist w = None) →
  (∀ hist h, outcome (handler_state env hist h) = Success) →
  covers N (registered steps) →
  (length (filter has_rows (registered steps)) ≤ n)%nat →
  tiling 0 N
    (range_of_file <$>
       received (session env steps n (created max_download_threads lz4_compressed))) ∧
  range_of_file <$>
    received (session env steps n (created max_download_threads lz4_compressed))
  ≡ₚ range_of_link <$> filter has_rows (registered steps) ∧
  cursor (session env steps n (created max_download_threads lz4_compressed)) = N ∧
  pending_links
    (manager (session env steps n (created max_download_threads lz4_compressed))) = [].
Proof.
  intros Hpool Hsuccess (chain & Hperm & Htiling) Hn.
  unfold session, consume. rewrite foldl_app.
  set (c0 := starting (created max_download_threads lz4_compressed)).
  assert (H0 : in_step N [] chain (filter has_rows (registered steps)) c0).
  { by repeat split. }
  destruct (consume_steps env Hpool Hsuccess N steps _ _ _ H0)
    as (done & rest & H1 & Heq).
  apply (consume_fetches env Hpool Hsuccess N n) in H1.
  2:{ apply Permutation_length in Hperm. rewrite Hperm in Hn.
      simpl in Heq. rewrite <- Heq, length_app in Hn. lia. }
  rewrite Heq in H1. simpl in H1.
  destruct H1 as (Hreceived & Hcursor & Hpending).
  unfold consume in *. rewrite Hreceived.
  repeat split.
  - done.
  - by rewrite Hperm.
  - done.
  - rewrite app_nil_r in Hpending. by apply Permutation_nil_r.
Qed.

Lemma fetches_tile_the_registered_rows_witness :
  tiling 0 30 (range_of_file <$> received (session all_succeed two_batches 3 fresh)) ∧
  range_of_file <$> received (session all_succeed two_batches 3 fresh)
  ≡ₚ range_of_link <$> filter has_rows (registered two_batches) ∧
  cursor (session all_succeed two_batches 3 fresh) = 30 ∧
  pending_links (manager (session all_succeed two_batches 3 fresh)) = [].
Proof.
  apply (fetches_tile_the_registered_rows all_succeed two_batches 30 3 3 false).
  - reflexivity.
  - reflexivity.
  - exists [link "a" 0 10; link "b" 10 15; link "c" 25 5]. split.
    + vm_compute. apply perm_skip, perm_swap.
    + simpl. lia.
  - vm_compute. lia.
Defined.

(** * Further properties of the manager *)

(** ** Eviction *)

(** X1. [_remove_past_handlers(R)] keeps, in their order, exactly the
    handlers whose range ends after row R; it touches nothing else and
    talks to no collaborator. *)
Theorem remove_past_handlers_is_filter (next_row_index : Z) (s : State) :
  fst (_remove_past_handlers next_row_index s) = Returns tt ∧
  download_handlers (self (snd (_remove_past_handlers next_row_index s)))
  = filter (still_needed next_row_index) (download_handlers (self s)) ∧
  history (snd (_remove_past_handlers next_row_index s)) = history s ∧
  same_configuration (self s) (self (snd (_remove_past_handlers next_row_index s))) ∧
  fetch_need_retry (self (snd (_remove_past_handlers next_row_index s)))
  = fetch_need_retry (self s) ∧
  num_consecutive_result_file_download_retries
    (self (snd (_remove_past_handlers next_row_index s)))
  = num_consecutive_result_file_download_retries (self s).
Proof. rewrite remove_past_handlers_spec. by repeat split. Qed.

(** X2. Evicting at row R and then at row R' leaves the handlers that
    evicting once at the larger of the two rows leaves. *)
Theorem remove_past_handlers_twice (next_row_index next_row_index' : Z) (s : State) :
  download_handlers
    (self (snd (_remove_past_handlers next_row_index'
                  (snd (_remove_past_handlers next_row_index s)))))
  = download_handlers
      (self (snd (_remove_past_handlers (Z.max next_row_index next_row_index') s))).
Proof.
  rewrite !remove_past_handlers_spec. simpl.
  rewrite list_filter_filter. apply list_filter_iff.
  intros h. unfold still_needed. lia.
Qed.

(** ** Scheduling *)

Lemma upgraded_scheduled_now pre :
  Forall2 upgraded pre (scheduled_now <$> pre).
Proof.
  apply Forall2_fmap_r, Forall_Forall2_diag, Forall_forall. intros h _.
  unfold upgraded, scheduled_now. simpl.
  destruct (is_download_scheduled h) eqn:Hs; [by left | by right].
Qed.

Lemma upgraded_same post : Forall2 upgraded post post.
Proof. apply Forall_Forall2_diag, Forall_forall. intros h _. by left. Qed.

(** X3. [_schedule_downloads] never raises, whatever the pool does. It
    keeps the pending handlers in number and order and changes nothing in
    them but the flag [is_download_scheduled], which it only ever sets;
    the other fields of the manager are untouched. *)
Theorem schedule_downloads_only_sets_flags (env : Environment) (s : State) :
  fst (_schedule_downloads env s) = Returns tt ∧
  Forall2 upgraded (download_handlers (self s))
    (download_handlers (self (snd (_schedule_downloads env s)))) ∧
  same_configuration (self s) (self (snd (_schedule_downloads env s))) ∧
  fetch_need_retry (self (snd (_schedule_downloads env s))) = fetch_need_retry (self s) ∧
  num_consecutive_result_file_download_retries (self (snd (_schedule_downloads env s)))
  = num_consecutive_result_file_download_retries (self s).
Proof.
  destruct (schedule_downloads_spec env s) as (pre & post & evs & Heq & -> & _).
  simpl. rewrite Heq. repeat split.
  apply Forall2_app; [apply upgraded_scheduled_now | apply upgraded_same].
Qed.

Lemma schedule_loop_scheduled (env : Environment) handlers s :
  Forall scheduled handlers → schedule_loop env handlers s = (Returns handlers, s).
Proof.
  induction 1 as [|h handlers Hh _ IH]; [done|].
  simpl. unfold scheduled in Hh. rewrite Hh. unfold bind, ret. by rewrite IH.
Qed.

(** X4. When every pending handler is already scheduled,
    [_schedule_downloads] submits nothing: the history and the pending
    handlers are as before. *)
Theorem schedule_downloads_skips_scheduled (env : Environment) (s : State) :
  Forall scheduled (download_handlers (self s)) →
  history (snd (_schedule_downloads env s)) = history s ∧
  download_handlers (self (snd (_schedule_downloads env s))) = download_handlers (self s).
Proof.
  intros Hall. unfold _schedule_downloads, bind, gets.
  by rewrite schedule_loop_scheduled.
Qed.

Lemma schedule_downloads_skips_scheduled_witness :
  history (snd (_schedule_downloads all_succeed (snd delivery_of_first_link)))
  = history (snd delivery_of_first_link) ∧
  download_handlers (self (snd (_schedule_downloads all_succeed (snd delivery_of_first_link))))
  = download_handlers (self (snd delivery_of_first_link)).
Proof.
  apply schedule_downloads_skips_scheduled.
  vm_compute. repeat constructor.
Defined.

(** ** Registration *)

(** X5. [add_file_links] never raises, submits nothing to the pool and
    leaves [fetch_need_retry], the retry counter, the settings and the
    handlers already pending as they are; the handlers it appends are not
    scheduled and carry the manager's settings. *)
Theorem add_file_links_frame
    (links : list TSparkArrowResultLink) (next_row_index : Z) (s : State) :
  fst (add_file_links links next_row_index s) = Returns tt ∧
  history (snd (add_file_links links next_row_index s)) = history s ∧
  fetch_need_retry (self (snd (add_file_links links next_row_index s)))
  = fetch_need_retry (self s) ∧
  num_consecutive_result_file_download_retries
    (self (snd (add_file_links links next_row_index s)))
  = num_consecutive_result_file_download_retries (self s) ∧
  downloadable_result_settings (self (snd (add_file_links links next_row_index s)))
  = downloadable_result_settings (self s) ∧
  take (length (download_handlers (self s)))
    (download_handlers (self (snd (add_file_links links next_row_index s))))
  = download_handlers (self s) ∧
  Forall (λ h, is_download_scheduled h = false ∧
               settings h = downloadable_result_settings (self s))
    (drop (length (download_handlers (self s)))
       (download_handlers (self (snd (add_file_links links next_row_index s))))).
Proof.
  unfold add_file_links, modify. simpl. rewrite add_file_links_loop_spec.
  repeat split.
  - by rewrite take_app_length.
  - rewrite drop_app_length. by apply Forall_fmap, Forall_forall.
Qed.

(** X6. Registering two batches one after the other is registering their
    concatenation with the index of the second call. *)
Theorem add_file_links_concatenates
    (links links' : list TSparkArrowResultLink) (next_row_index next_row_index' : Z)
    (s : State) :
  snd (add_file_links links' next_row_index'
         (snd (add_file_links links next_row_index s)))
  = snd (add_file_links (links ++ links') next_row_index' s).
Proof.
  unfold add_file_links, modify. simpl. rewrite !add_file_links_loop_spec.
  unfold set_cloud_fetch_index, set_download_handlers. simpl.
  by rewrite filter_app, fmap_app, app_assoc.
Qed.

(** ** What a call does to the pending handlers *)

Section Pending.

Variable env : Environment.

Lemma after_scheduling_kept next_row_index s :
  Forall2 upgraded
    (filter (still_needed next_row_index) (download_handlers (self s)))
    (download_handlers (self (after_scheduling env next_row_index s))).
Proof.
  destruct (after_scheduling_spec env next_row_index s)
    as (pre & post & evs & -> & -> & _).
  simpl. apply Forall2_app; [apply upgraded_scheduled_now | apply upgraded_same].
Qed.

Lemma get_next_downloaded_file_kept next_row_index s :
  ∃ kept,
    kept `sublist_of` download_handlers (self s) ∧
    Forall2 upgraded kept
      (download_handlers (self (snd (get_next_downloaded_file env next_row_index s)))).
Proof.
  pose proof (after_scheduling_kept next_row_index s) as Hkept.
  pose proof (sublist_filter (still_needed next_row_index) (download_handlers (self s)))
    as Hsub.
  pose proof (get_next_downloaded_file_spec env next_row_index s) as Hspec.
  simpl in Hspec.
  destruct (download_handlers (self s)) as [|h0 hs0] eqn:Hhs.
  { rewrite Hspec. simpl. rewrite Hhs. exists []. split; [done | constructor]. }
  destruct (located env next_row_index s) as [idx|].
  2:{ rewrite Hspec. eauto. }
  destruct Hspec as (handler & r & s3 & evs & _ & _ & _ & _ & _ & Hres & ->).
  pose proof (resolution_handlers _ _ _ _ _ _ Hres) as Hhandlers.
  destruct r as [[|]|e]; simpl.
  - destruct Hres as (-> & _).
    exists (delete idx (filter (still_needed next_row_index) (h0 :: hs0))). split.
    + etrans; [apply sublist_delete | done].
    + by apply Forall2_delete.
  - destruct Hhandlers as [-> | ->]; [eauto|].
    exists []. split; [apply sublist_nil_l | constructor].
  - destruct Hhandlers as [-> | ->]; [eauto|].
    exists []. split; [apply sublist_nil_l | constructor].
Qed.

Lemma check_loop_raises handler depth :
  ∀ s e s',
    check_loop env depth handler s = (Raises e, s') →
    (depth ≤ retries_left (self s))%nat ∨
    ∃ hist, pool_submit env hist (handler_itself handler) = Some e.
Proof.
  induction depth as [|depth IH]; intros s e s' Hrun.
  - left. lia.
  - rewrite check_loop_step in Hrun.
    destruct (observed_outcome env handler s); try done.
    case_decide as Hbudget; [done|].
    destruct (pool_submit env _ _) as [e'|] eqn:Hpool.
    + injection Hrun as <- <-. right. eauto.
    + apply IH in Hrun as [Hdepth | Hpool']; [left | by right].
      unfold retries_left, budget_exhausted in *. simpl in Hdepth. lia.
Qed.

End Pending.

(** X7. A call of [get_next_downloaded_file] never adds, duplicates or
    reorders pending handlers: those pending afterwards are, in order,
    some of those pending before, each unchanged or with
    [is_download_scheduled] newly set. *)
Theorem get_next_downloaded_file_only_drops_handlers
    (env : Environment) (next_row_index : Z) (s : State) :
  ∃ kept,
    kept `sublist_of` download_handlers (self s) ∧
    Forall2 upgraded kept
      (download_handlers (self (snd (get_next_downloaded_file env next_row_index s)))).
Proof. apply get_next_downloaded_file_kept. Qed.

(** X8. The only exception [get_next_downloaded_file] lets through is
    one that the pool raised when the located handler was resubmitted for
    a retry: the list accesses are always in range and the recursion is
    bounded. *)
Theorem get_next_downloaded_file_raises_only_from_pool
    (env : Environment) (next_row_index : Z) (s : State) (e : Exception) :
  fst (get_next_downloaded_file env next_row_index s) = Raises e →
  ∃ handler hist,
    located_handler env next_row_index s = Some handler ∧
    pool_submit env hist (handler_itself handler) = Some e.
Proof.
  intros Hraise.
  pose proof (get_next_downloaded_file_spec env next_row_index s) as Hspec.
  simpl in Hspec. unfold located_handler.
  destruct (download_handlers (self s)) as [|h0 hs0].
  { by rewrite Hspec in Hraise. }
  destruct (located env next_row_index s) as [idx|].
  2:{ by rewrite Hspec in Hraise. }
  destruct Hspec as (handler & r & s3 & evs & Hidx & _ & Hcheck & _ & _ & _ & Hget).
  rewrite Hget in Hraise.
  destruct r as [[|]|e']; try done. simpl in Hraise. injection Hraise as ->.
  rewrite check_if_download_successful_unfold in Hcheck.
  apply check_loop_raises in Hcheck as [Hdepth | (hist & Hpool)].
  { unfold retry_depth, retries_left in Hdepth. lia. }
  by exists handler, hist.
Qed.

Lemma get_next_downloaded_file_raises_only_from_pool_witness :
  ∃ handler hist,
    located_handler rejects_resubmissions 0 (patient 1) = Some handler ∧
    pool_submit rejects_resubmissions hist (handler_itself handler) = Some RuntimeError.
Proof.
  apply (get_next_downloaded_file_raises_only_from_pool rejects_resubmissions 0 (patient 1)).
  vm_compute. reflexivity.
Defined.

(** X9. When the located handler has timed out, the budget allows a
    retry and the pool rejects the resubmission, the pool's exception
    comes out of [get_next_downloaded_file]: the retry has been counted,
    while [fetch_need_retry], [cloud_fetch_index] and the pending handlers
    are as eviction and scheduling left them. *)
Theorem rejected_resubmission_raises
    (env : Environment) (next_row_index : Z) (s : State)
    (handler : ResultSetDownloadHandler) (e : Exception) :
  located_handler env next_row_index s = Some handler →
  observed_outcome env handler (after_scheduling env next_row_index s) = TimedOut →
  ¬ budget_exhausted (self s) →
  pool_submit env
    (history (waited handler (after_scheduling env next_row_index s)))
    (handler_itself handler) = Some e →
  ∃ s',
    get_next_downloaded_file env next_row_index s = (Raises e, s') ∧
    history s'
    = history (after_scheduling env next_row_index s)
      ++ [Waited handler; Rejected (handler_itself handler) e] ∧
    num_consecutive_result_file_download_retries (self s')
    = num_consecutive_result_file_download_retries (self s) + 1 ∧
    fetch_need_retry (self s') = fetch_need_retry (self s) ∧
    cloud_fetch_index (self s') = cloud_fetch_index (self s) ∧
    download_handlers (self s')
    = download_handlers (self (after_scheduling env next_row_index s)).
Proof.
  intros Hloc Hobs Hbudget Hpool.
  apply located_handler_Some in Hloc as (Hne & idx & Hloc & Hidx).
  pose proof (get_next_downloaded_file_spec env next_row_index s) as Hspec.
  simpl in Hspec.
  destruct (after_scheduling_frame env next_row_index s)
    as ((_ & Hsettings & Hcursor) & Hflag & Hretries & _).
  destruct (download_handlers (self s)) as [|h0 hs0]; [done|].
  rewrite Hloc in Hspec.
  destruct Hspec as (handler' & r & s3 & evs & Hidx' & _ & Hcheck & _ & _ & _ & ->).
  rewrite Hidx in Hidx'. injection Hidx' as <-.
  rewrite check_if_download_successful_unfold in Hcheck.
  unfold retry_depth in Hcheck. rewrite check_loop_step, Hobs in Hcheck.
  rewrite decide_False in Hcheck
    by (unfold budget_exhausted in *; rewrite Hsettings, Hretries; done).
  rewrite Hpool in Hcheck. injection Hcheck as <- <-.
  eexists. split; [reflexivity|]. simpl.
  rewrite Hretries, Hflag, Hcursor, <- app_assoc. by repeat split.
Qed.

Lemma rejected_resubmission_raises_witness :
  ∃ s',
    get_next_downloaded_file rejects_resubmissions 0 (patient 1)
    = (Raises RuntimeError, s') ∧
    history s'
    = history (after_scheduling rejects_resubmissions 0 (patient 1))
      ++ [Waited (patient_handler 1);
          Rejected (handler_itself (patient_handler 1)) RuntimeError] ∧
    num_consecutive_result_file_download_retries (self s')
    = num_consecutive_result_file_download_retries (self (patient 1)) + 1 ∧
    fetch_need_retry (self s') = fetch_need_retry (self (patient 1)) ∧
    cloud_fetch_index (self s') = cloud_fetch_index (self (patient 1)) ∧
    download_handlers (self s')
    = download_handlers (self (after_scheduling rejects_resubmissions 0 (patient 1))).
Proof.
  apply (rejected_resubmission_raises rejects_resubmissions 0 (patient 1)
           (patient_handler 1) RuntimeError).
  - vm_compute. reflexivity.
  - vm_compute. reflexivity.
  - unfold budget_exhausted. simpl. lia.
  - reflexivity.
Defined.

(** ** The retry counter *)

Section Retries.

Variable env : Environment.

Lemma check_loop_within_budget handler depth :
  ∀ s, within_budget (self s) →
       within_budget (self (snd (check_loop env depth handler s))).
Proof.
  induction depth as [|depth IH]; intros s Hs; [done|].
  rewrite check_loop_step.
  destruct (observed_outcome env handler s); try done.
  - unfold within_budget in *. simpl. lia.
  - case_decide as Hbudget; [done|].
    destruct (pool_submit env _ _) as [e|].
    + unfold within_budget, budget_exhausted in *. simpl. lia.
    + apply IH. unfold within_budget, budget_exhausted in *. simpl. lia.
Qed.

Lemma check_loop_succeeds handler n s :
  succeeds_after env handler n s →
  ∀ depth, (retries_left (self s) < depth)%nat →
  ∃ s',
    check_loop env depth handler s = (Returns true, s') ∧
    history s' = history s ++ retry_events n handler.
Proof.
  induction 1 as [s Hobs | n s Hobs Hbudget Hpool _ IH];
    intros [|depth] Hdepth; try lia; rewrite check_loop_step, Hobs.
  - by eexists.
  - rewrite decide_False by done. rewrite Hpool.
    destruct (IH depth) as (s' & Hrun & Hhist).
    { unfold retries_left, budget_exhausted in *. simpl. lia. }
    exists s'. split; [done|]. rewrite Hhist. simpl. by rewrite <- app_assoc.
Qed.

(** With the budget used up a resolution waits once and never resubmits. *)
Lemma check_loop_exhausted handler depth s :
  budget_exhausted (self s) →
  ∃ ok s',
    check_loop env (S depth) handler s = (Returns ok, s') ∧
    history s' = history s ++ [Waited handler].
Proof.
  intros Hbudget. rewrite check_loop_step.
  destruct (observed_outcome env handler s); try by eexists _, _.
  rewrite decide_True by done. by eexists _, _.
Qed.

End Retries.

Lemma get_next_downloaded_file_counter_bounds
    (env : Environment) (next_row_index : Z) (s : State) :
  within_budget (self s) →
  within_budget (self (snd (get_next_downloaded_file env next_row_index s))).
Proof.
  intros Hs.
  pose proof (get_next_downloaded_file_spec env next_row_index s) as Hspec.
  simpl in Hspec.
  destruct (after_scheduling_frame env next_row_index s)
    as ((_ & Hsettings & _) & _ & Hretries & _).
  assert (Hs2 : within_budget (self (after_scheduling env next_row_index s))).
  { unfold within_budget. by rewrite Hsettings, Hretries. }
  destruct (download_handlers (self s)) as [|h0 hs0].
  { by rewrite Hspec. }
  destruct (located env next_row_index s) as [idx|].
  2:{ by rewrite Hspec. }
  destruct Hspec as (handler & r & s3 & evs & _ & _ & Hcheck & _ & _ & _ & ->).
  rewrite check_if_download_successful_unfold in Hcheck.
  pose proof (check_loop_within_budget env handler
                (retry_depth (self (after_scheduling env next_row_index s))) _ Hs2) as Hs3.
  rewrite Hcheck in Hs3. by destruct r as [[|]|e].
Qed.

(** X10. A call of [get_next_downloaded_file] keeps the retry counter
    between zero and [max_consecutive_file_download_retries], whatever
    the downloads and the pool do and whether it returns or raises. *)
Theorem get_next_downloaded_file_within_budget
    (env : Environment) (next_row_index : Z) (s : State) :
  within_budget (self s) →
  within_budget (self (snd (get_next_downloaded_file env next_row_index s))).
Proof. apply get_next_downloaded_file_counter_bounds. Qed.

Lemma get_next_downloaded_file_within_budget_witness :
  within_budget (self (snd (get_next_downloaded_file always_times_out 0 (patient 2)))).
Proof.
  apply get_next_downloaded_file_within_budget.
  unfold within_budget. simpl. lia.
Defined.

(** X11. A located handler whose download times out [n] times, each
    time with budget left and a resubmission that the pool takes, and
    then succeeds is delivered by the same call: the file has the range
    of its link and the payload last seen, the handler was resubmitted
    [n] times, the retry counter is back to zero and [fetch_need_retry]
    is false. *)
Theorem retried_download_is_delivered
    (env : Environment) (next_row_index : Z) (s : State)
    (handler : ResultSetDownloadHandler) (n : nat) :
  located_handler env next_row_index s = Some handler →
  succeeds_after env handler n (after_scheduling env next_row_index s) →
  ∃ file s',
    get_next_downloaded_file env next_row_index s = (Returns (Some file), s') ∧
    range_of_file file = range_of_link (result_link handler) ∧
    file_bytes file = result_file (handler_state env (history s') handler) ∧
    history s'
    = history (after_scheduling env next_row_index s) ++ retry_events n handler ∧
    num_consecutive_result_file_download_retries (self s') = 0 ∧
    fetch_need_retry (self s') = false.
Proof.
  intros Hloc Hsucceeds.
  apply located_handler_Some in Hloc as (Hne & idx & Hloc & Hidx).
  pose proof (get_next_downloaded_file_spec env next_row_index s) as Hspec.
  simpl in Hspec.
  destruct (download_handlers (self s)) as [|h0 hs0]; [done|].
  rewrite Hloc in Hspec.
  destruct Hspec as (handler' & r & s3 & evs & Hidx' & _ & Hcheck & _ & _ & Hres & ->).
  rewrite Hidx in Hidx'. injection Hidx' as <-.
  rewrite check_if_download_successful_unfold in Hcheck.
  destruct (check_loop_succeeds env handler n _ Hsucceeds
              (retry_depth (self (after_scheduling env next_row_index s))))
    as (s' & Hrun & Hhist).
  { unfold retry_depth, retries_left. lia. }
  rewrite Hrun in Hcheck. injection Hcheck as <- <-.
  destruct Hres as (_ & Hflag & Hcount & _).
  eexists _, _. split; [reflexivity|]. by repeat split.
Qed.

Lemma retried_download_is_delivered_witness :
  ∃ file s',
    get_next_downloaded_file times_out_then_succeeds 0 (patient 1)
    = (Returns (Some file), s') ∧
    range_of_file file = range_of_link (result_link (patient_handler 1)) ∧
    file_bytes file
    = result_file (handler_state times_out_then_succeeds (history s') (patient_handler 1)) ∧
    history s'
    = history (after_scheduling times_out_then_succeeds 0 (patient 1))
      ++ retry_events 1 (patient_handler 1) ∧
    num_consecutive_result_file_download_retries (self s') = 0 ∧
    fetch_need_retry (self s') = false.
Proof.
  apply (retried_download_is_delivered times_out_then_succeeds 0 (patient 1)
           (patient_handler 1) 1).
  - vm_compute. reflexivity.
  - apply succeeds_retried.
    + vm_compute. reflexivity.
    + unfold budget_exhausted. simpl. lia.
    + reflexivity.
    + apply succeeds_now. vm_compute. reflexivity.
Defined.

(** ** Managers with the settings of the constructor *)

Section Defaults.

Variable env : Environment.

Lemma get_next_downloaded_file_no_budget next_row_index s :
  max_consecutive_file_download_retries (downloadable_result_settings (self s)) = 0 →
  num_consecutive_result_file_download_retries (self s) = 0 →
  resubmissions (history s) = [] →
  (∃ v, fst (get_next_downloaded_file env next_row_index s) = Returns v) ∧
  max_consecutive_file_download_retries
    (downloadable_result_settings (self (snd (get_next_downloaded_file env next_row_index s))))
  = 0 ∧
  num_consecutive_result_file_download_retries
    (self (snd (get_next_downloaded_file env next_row_index s))) = 0 ∧
  resubmissions (history (snd (get_next_downloaded_file env next_row_index s))) = [].
Proof.
  intros Hbudget Hcount Hnone.
  pose proof (get_next_downloaded_file_counter_bounds env next_row_index s) as Hwithin.
  pose proof (get_next_downloaded_file_spec env next_row_index s) as Hspec.
  simpl in Hspec.
  destruct (after_scheduling_frame env next_row_index s)
    as ((_ & Hsettings & _) & _ & Hretries & _).
  destruct (after_scheduling_history env next_row_index s) as (sevs & Hhist & Hsevs).
  assert (Hnone2 : resubmissions (history (after_scheduling env next_row_index s)) = []).
  { by rewrite Hhist, resubmissions_app, Hnone, Hsevs. }
  destruct (download_handlers (self s)) as [|h0 hs0].
  { rewrite Hspec. simpl. eauto. }
  destruct (located env next_row_index s) as [idx|].
  2:{ rewrite Hspec. simpl. rewrite Hsettings, Hretries. eauto. }
  destruct Hspec as (handler & r & s3 & evs & _ & _ & Hcheck & _ & (_ & Hsettings3 & _)
                     & _ & Hget).
  rewrite check_if_download_successful_unfold in Hcheck. unfold retry_depth in Hcheck.
  destruct (check_loop_exhausted env handler
              (Z.to_nat
                 (max_consecutive_file_download_retries
                    (downloadable_result_settings
                       (self (after_scheduling env next_row_index s)))
                  - num_consecutive_result_file_download_retries
                      (self (after_scheduling env next_row_index s))))
              (after_scheduling env next_row_index s))
    as (ok & s3' & Hrun & Hhist3).
  { unfold budget_exhausted. rewrite Hsettings, Hretries. lia. }
  rewrite Hrun in Hcheck. injection Hcheck as <- <-.
  assert (Hwithin' : within_budget (self s)) by (unfold within_budget; lia).
  apply Hwithin in Hwithin'. rewrite Hget in *.
  assert (Hbudget3 : max_consecutive_file_download_retries
                       (downloadable_result_settings (self s3')) = 0) by congruence.
  assert (Hnone3 : resubmissions (history s3') = []).
  { by rewrite Hhist3, resubmissions_app, Hnone2. }
  destruct ok; simpl in *; unfold within_budget in Hwithin'; simpl in Hwithin';
    (split; [eauto|]); repeat split; try done; lia.
Qed.

Lemma run_no_budget calls :
  ∀ s,
    max_consecutive_file_download_retries (downloadable_result_settings (self s)) = 0 →
    num_consecutive_result_file_download_retries (self s) = 0 →
    resubmissions (history s) = [] →
    max_consecutive_file_download_retries
      (downloadable_result_settings (self (run env calls s))) = 0 ∧
    num_consecutive_result_file_download_retries (self (run env calls s)) = 0 ∧
    resubmissions (history (run env calls s)) = [].
Proof.
  induction calls as [|c calls IH]; intros s Hbudget Hcount Hnone; [done|].
  simpl. destruct c as [links next_row_index | next_row_index]; simpl.
  - by apply IH.
  - destruct (get_next_downloaded_file_no_budget next_row_index s Hbudget Hcount Hnone)
      as (_ & ? & ? & ?).
    by apply IH.
Qed.

End Defaults.

(** X12. A manager built by [__init__] keeps the retry budget 0 of
    [_get_downloadable_result_settings]: over any sequence of calls it
    never resubmits a download, its retry counter stays zero and
    [get_next_downloaded_file] never raises. *)
Theorem constructed_manager_never_retries
    (env : Environment) (max_download_threads : Z) (lz4_compressed : bool)
    (calls : list Call) (next_row_index : Z) :
  resubmissions
    (history (run env calls (created max_download_threads lz4_compressed))) = [] ∧
  num_consecutive_result_file_download_retries
    (self (run env calls (created max_download_threads lz4_compressed))) = 0 ∧
  ∃ v, fst (get_next_downloaded_file env next_row_index
              (run env calls (created max_download_threads lz4_compressed)))
       = Returns v.
Proof.
  destruct (run_no_budget env calls (created max_download_threads lz4_compressed))
    as (Hbudget & Hcount & Hnone); try done.
  repeat split; try done.
  by destruct (get_next_downloaded_file_no_budget env next_row_index _ Hbudget Hcount Hnone)
    as (? & _).
Qed.

(** ** What the caller can read off a call *)

(** X13. When a handler is located and the call returns, the flag
    [fetch_need_retry] tells what happened: it is false after a file was
    returned and true after [None]. *)
Theorem fetch_need_retry_reports_resolution
    (env : Environment) (next_row_index : Z) (s : State)
    (handler : ResultSetDownloadHandler) (v : option DownloadedFile) (s' : State) :
  located_handler env next_row_index s = Some handler →
  get_next_downloaded_file env next_row_index s = (Returns v, s') →
  fetch_need_retry (self s') = match v with None => true | Some _ => false end.
Proof.
  intros Hloc Hrun.
  apply located_handler_Some in Hloc as (Hne & idx & Hloc & Hidx).
  pose proof (get_next_downloaded_file_spec env next_row_index s) as Hspec.
  simpl in Hspec.
  destruct (download_handlers (self s)) as [|h0 hs0]; [done|].
  rewrite Hloc in Hspec.
  destruct Hspec as (handler' & r & s3 & evs & _ & _ & _ & _ & _ & Hres & Hget).
  rewrite Hget in Hrun.
  destruct r as [[|]|e]; try done; injection Hrun as <- <-; simpl.
  - by destruct Hres as (_ & ? & _).
  - by destruct Hres as (? & _).
Qed.

Lemma fetch_need_retry_reports_resolution_witness :
  fetch_need_retry (self (snd (get_next_downloaded_file always_times_out 0 (patient 0))))
  = true.
Proof.
  apply (fetch_need_retry_reports_resolution always_times_out 0 (patient 0)
           (patient_handler 0) None
           (snd (get_next_downloaded_file always_times_out 0 (patient 0)))).
  - vm_compute. reflexivity.
  - vm_compute. reflexivity.
Defined.

(** X14. When no scheduled handler starts at the requested row (none is
    pending, the row lies inside a range, or the pool has not taken the
    handler yet), the call returns [None] without waiting on any
    download, and leaves [fetch_need_retry], the retry counter and
    [cloud_fetch_index] as they were. *)
Theorem unlocated_row_is_not_ready
    (env : Environment) (next_row_index : Z) (s : State) :
  located_handler env next_row_index s = None →
  ∃ s',
    get_next_downloaded_file env next_row_index s = (Returns None, s') ∧
    (s' = s ∨ s' = after_scheduling env next_row_index s) ∧
    fetch_need_retry (self s') = fetch_need_retry (self s) ∧
    num_consecutive_result_file_download_retries (self s')
    = num_consecutive_result_file_download_retries (self s) ∧
    cloud_fetch_index (self s') = cloud_fetch_index (self s).
Proof.
  unfold located_handler. intros Hloc.
  pose proof (get_next_downloaded_file_spec env next_row_index s) as Hspec.
  simpl in Hspec.
  destruct (after_scheduling_frame env next_row_index s)
    as ((_ & _ & Hcursor) & Hflag & Hretries & _).
  destruct (download_handlers (self s)) as [|h0 hs0].
  { exists s. repeat split; auto. }
  destruct (located env next_row_index s) as [idx|] eqn:Hidx.
  { apply located_Some in Hidx as (handler & Hlookup & _). congruence. }
  exists (after_scheduling env next_row_index s). repeat split; auto.
Qed.

Lemma unlocated_row_is_not_ready_witness :
  ∃ s',
    get_next_downloaded_file all_succeed 5 two_links = (Returns None, s') ∧
    (s' = two_links ∨ s' = after_scheduling all_succeed 5 two_links) ∧
    fetch_need_retry (self s') = fetch_need_retry (self two_links) ∧
    num_consecutive_result_file_download_retries (self s')
    = num_consecutive_result_file_download_retries (self two_links) ∧
    cloud_fetch_index (self s') = cloud_fetch_index (self two_links).
Proof.
  apply unlocated_row_is_not_ready. vm_compute. reflexivity.
Defined.

(** X15. A call waits on no download but that of the located handler:
    every blocking call it makes is on the scheduled handler that starts
    at the requested row and comes first in pending order. *)
Theorem get_next_downloaded_file_waits_on_located
    (env : Environment) (next_row_index : Z) (s : State)
    (h : ResultSetDownloadHandler) (evs : list Event) :
  history (snd (get_next_downloaded_file env next_row_index s)) = history s ++ evs →
  Waited h ∈ evs →
  located_handler env next_row_index s = Some h.
Proof.
  intros Hhist Hin.
  pose proof (get_next_downloaded_file_spec env next_row_index s) as Hspec.
  simpl in Hspec. unfold located_handler.
  destruct (after_scheduling_spec env next_row_index s)
    as (pre & post & sevs & _ & Hs2 & Hpost).
  assert (Hsevs : Waited h ∉ sevs).
  { intros Hin'. destruct post as [|h' post].
    - rewrite Forall_forall in Hpost. by apply Hpost in Hin'.
    - destruct Hpost as (_ & e & evs0 & -> & Hsub & _).
      apply elem_of_app in Hin' as [Hin'|Hin'].
      + rewrite Forall_forall in Hsub. by apply Hsub in Hin'.
      + apply list_elem_of_In in Hin'. simpl in Hin'. by destruct Hin' as [|[|[]]]. }
  assert (Hhist2 : history (after_scheduling env next_row_index s) = history s ++ sevs)
    by by rewrite Hs2.
  destruct (download_handlers (self s)) as [|h0 hs0].
  { rewrite Hspec in Hhist. simpl in Hhist.
    assert (evs = []) as ->.
    { apply (app_inv_head (history s)). by rewrite app_nil_r. }
    by apply elem_of_nil in Hin. }
  destruct (located env next_row_index s) as [idx|].
  2:{ rewrite Hspec in Hhist. simpl in Hhist.
      assert (evs = sevs) as ->.
      { apply (app_inv_head (history s)). by rewrite <- Hhist, Hhist2. }
      done. }
  destruct Hspec as (handler & r & s3 & cevs & Hidx & _ & Hcheck & Hhist3 & _ & _ & Hget).
  destruct (check_loop_events env handler
              (retry_depth (self (after_scheduling env next_row_index s)))
              (after_scheduling env next_row_index s)) as (cevs' & Hhist3' & Hcevs).
  rewrite <- check_if_download_successful_unfold, Hcheck in Hhist3'. simpl in Hhist3'.
  assert (history (snd (get_next_downloaded_file env next_row_index s)) = history s3) as Hfinal.
  { rewrite Hget. by destruct r as [[|]|e]. }
  assert (evs = sevs ++ cevs') as ->.
  { apply (app_inv_head (history s)).
    by rewrite <- Hhist, Hfinal, Hhist3', Hhist2, app_assoc. }
  apply elem_of_app in Hin as [Hin|Hin]; [done|].
  rewrite Forall_forall in Hcevs. apply Hcevs in Hin. simpl in Hin. by subst.
Qed.

Lemma get_next_downloaded_file_waits_on_located_witness :
  located_handler all_succeed 0 two_links
  = Some (mark_scheduled
            (new_handler (_get_downloadable_result_settings false) (link "a" 0 10))).
Proof.
  apply (get_next_downloaded_file_waits_on_located all_succeed 0 two_links _
           (history (snd delivery_of_first_link))).
  - vm_compute. reflexivity.
  - vm_compute. apply list_elem_of_further, list_elem_of_further, list_elem_of_here.
Defined.

(** X16. If the pool takes every first submission, then after a call of
    [get_next_downloaded_file], whatever it returned or raised, every
    pending handler is scheduled: one call starts the download of all
    the links that are still needed, not only of the one asked for. *)
Theorem get_next_downloaded_file_schedules_all
    (env : Environment) (next_row_index : Z) (s : State) :
  (∀ hist h, pool_submit env hist (handler_run h) = None) →
  Forall scheduled
    (download_handlers (self (snd (get_next_downloaded_file env next_row_index s)))).
Proof.
  intros Hpool.
  assert (Hs2 : Forall scheduled
                  (download_handlers (self (after_scheduling env next_row_index s)))).
  { destruct (after_scheduling_spec env next_row_index s)
      as (pre & post & sevs & _ & -> & Hpost).
    destruct post as [|h post].
    - simpl. rewrite app_nil_r. apply Forall_fmap, Forall_forall. intros h _.
      apply scheduled_now_scheduled.
    - destruct Hpost as (_ & e & evs0 & _ & _ & Hrej). by rewrite Hpool in Hrej. }
  pose proof (get_next_downloaded_file_spec env next_row_index s) as Hspec.
  simpl in Hspec.
  destruct (download_handlers (self s)) as [|h0 hs0] eqn:Hhs.
  { rewrite Hspec. simpl. rewrite Hhs. constructor. }
  destruct (located env next_row_index s) as [idx|].
  2:{ by rewrite Hspec. }
  destruct Hspec as (handler & r & s3 & evs & _ & _ & _ & _ & _ & Hres & ->).
  pose proof (resolution_handlers _ _ _ _ _ _ Hres) as Hhandlers.
  destruct r as [[|]|e]; simpl.
  - destruct Hres as (-> & _). by apply Forall_delete.
  - destruct Hhandlers as [-> | ->]; [done | constructor].
  - destruct Hhandlers as [-> | ->]; [done | constructor].
Qed.

Lemma get_next_downloaded_file_schedules_all_witness :
  Forall scheduled
    (download_handlers (self (snd (get_next_downloaded_file second_expired 0 two_links)))).
Proof.
  apply get_next_downloaded_file_schedules_all. reflexivity.
Defined.

(** ** Delivery in row order, whatever fails *)

Lemma upgraded_links kept handlers :
  Forall2 upgraded kept handlers → result_link <$> handlers = result_link <$> kept.
Proof.
  induction 1 as [|h h' kept handlers Hh _ IH]; [done|].
  simpl. f_equal; [|done]. by destruct Hh as [-> | (_ & ->)].
Qed.

Lemma tiling_le from to ranges : tiling from to ranges → from ≤ to.
Proof.
  revert from. induction ranges as [|range ranges IH]; intros from; simpl.
  - lia.
  - intros (_ & Hrows & Ht). apply IH in Ht. lia.
Qed.

Section AnyEnvironment.

Variable env : Environment.
Variable N : Z.
Variable chain : list TSparkArrowResultLink.

Lemma get_next_downloaded_file_links next_row_index s :
  pending_links (snd (get_next_downloaded_file env next_row_index s))
  `sublist_of` pending_links s.
Proof.
  destruct (get_next_downloaded_file_kept env next_row_index s) as (kept & Hsub & Hkept).
  unfold pending_links. rewrite (upgraded_links _ _ Hkept). by apply fmap_sublist.
Qed.

(** One fetch at the start of [rest], with an arbitrary environment. *)
Lemma get_next_downloaded_file_in_order s from rest future :
  tiling from N (range_of_link <$> rest) →
  pending_links s ++ future ⊆+ rest →
  match fst (get_next_downloaded_file env from s) with
  | Returns (Some file) =>
      ∃ head rest',
        rest = head :: rest' ∧
        range_of_file file = range_of_link head ∧
        pending_links (snd (get_next_downloaded_file env from s)) ++ future ⊆+ rest'
  | _ => pending_links (snd (get_next_downloaded_file env from s)) ++ future ⊆+ rest
  end.
Proof.
  intros Htiling Hsub.
  assert (Hother : pending_links (snd (get_next_downloaded_file env from s)) ++ future
                   ⊆+ rest).
  { etrans; [|exact Hsub].
    apply submseteq_app; [|done].
    apply sublist_submseteq, get_next_downloaded_file_links. }
  destruct (fst (get_next_downloaded_file env from s)) as [[file|]|e] eqn:Hfst;
    [|done|done].
  clear Hother.
  assert (Hrest : ∀ l, l ∈ rest → from ≤ startRowOffset l ∧ 0 < rowCount l).
  { intros l Hl. pose proof (tiling_later _ _ _ Htiling) as Hlater.
    rewrite Forall_fmap, Forall_forall in Hlater. by apply Hlater in Hl. }
  assert (Hpending : ∀ l, l ∈ pending_links s → l ∈ rest).
  { intros l Hl. eapply elem_of_submseteq; [|exact Hsub]. apply elem_of_app. by left. }
  assert (Hkeep : filter (still_needed from) (download_handlers (self s))
                  = download_handlers (self s)).
  { apply filter_keeps_all, Forall_forall. intros h Hh.
    assert (Hl : result_link h ∈ pending_links s) by by apply list_elem_of_fmap_2.
    apply Hpending, Hrest in Hl. unfold still_needed. lia. }
  destruct (after_scheduling_frame env from s) as (_ & _ & _ & Hlinks2).
  rewrite Hkeep in Hlinks2.
  pose proof (get_next_downloaded_file_spec env from s) as Hspec. simpl in Hspec.
  destruct (download_handlers (self s)) as [|h0 hs0] eqn:Hhs.
  { by rewrite Hspec in Hfst. }
  rewrite <- Hhs in *.
  destruct (located env from s) as [idx|] eqn:Hloc.
  2:{ destruct (download_handlers (self s)); [done|]. by rewrite Hspec in Hfst. }
  assert (Hspec' :
    ∃ handler r s3 evs,
      download_handlers (self (after_scheduling env from s)) !! idx = Some handler ∧
      wanted from handler ∧
      resolution env handler False (after_scheduling env from s) r s3 evs ∧
      get_next_downloaded_file env from s
      = match r with
        | Returns true => (Returns (Some (downloaded_file env handler s3)),
                           delivered idx handler s3)
        | Returns false => (Returns None, s3)
        | Raises e => (Raises e, s3)
        end).
  { destruct (download_handlers (self s)) as [|h1 hs1]; [done|].
    destruct Hspec as (handler & r & s3 & evs & ? & ? & _ & _ & _ & ? & ?).
    by exists handler, r, s3, evs. }
  clear Hspec.
  destruct Hspec' as (handler & r & s3 & evs & Hidx & (_ & Hstart) & Hres & Hget).
  rewrite Hget in *.
  destruct r as [[|]|e]; try done. simpl in Hfst. injection Hfst as <-.
  destruct Hres as (Hsame & _).
  assert (Hlink : pending_links s !! idx = Some (result_link handler)).
  { unfold pending_links. by rewrite <- Hlinks2, list_lookup_fmap, Hidx. }
  assert (Hin : result_link handler ∈ rest).
  { apply Hpending. by eapply list_elem_of_lookup_2. }
  destruct rest as [|head rest']; [by apply elem_of_nil in Hin|].
  assert (result_link handler = head) as Hhead.
  { apply elem_of_cons in Hin as [Heq|Hin]; [done|].
    destruct Htiling as (Hs0 & Hrows & Htiling). simpl in *.
    apply tiling_later in Htiling. rewrite Forall_fmap, Forall_forall in Htiling.
    apply Htiling in Hin. simpl in Hin. lia. }
  exists head, rest'. repeat split; [by rewrite <- Hhead|].
  simpl. unfold pending_links at 1. simpl.
  rewrite Hsame, list_fmap_delete, Hlinks2.
  apply (delete_Permutation _ _ _) in Hlink. rewrite Hhead in Hlink.
  unfold pending_links in *. rewrite Hlink in Hsub. simpl in Hsub.
  by apply (submseteq_app_inv_l _ _ [head]).
Qed.

Lemma step_add_links_in_order done rest future links next_row_index c :
  in_order N chain done rest (filter has_rows links ++ future) c →
  in_order N chain done rest future (step env c (AddLinks links next_row_index)).
Proof.
  intros (Hchain & Hreceived & Hdone & Hrest & Hsub).
  unfold in_order. cbn [step manager cursor received].
  by rewrite pending_links_add_file_links, <- app_assoc.
Qed.

Lemma step_fetch_in_order done rest future c :
  in_order N chain done rest future c →
  ∃ done' rest', in_order N chain done' rest' future (step env c Fetch).
Proof.
  intros (Hchain & Hreceived & Hdone & Hrest & Hsub).
  pose proof (get_next_downloaded_file_in_order (manager c) (cursor c) rest future
                Hrest Hsub) as Hstep.
  unfold step.
  destruct (get_next_downloaded_file env (cursor c) (manager c)) as [r s'].
  simpl in Hstep.
  destruct r as [[file|]|e];
    try (exists done, rest; by repeat split).
  destruct Hstep as (head & rest' & -> & Hrange & Hsub').
  exists (done ++ [head]), rest'.
  destruct Hrest as (Hstart & Hrows & Hrest).
  injection Hrange as Hfile_start Hfile_rows. cbn [fst snd range_of_link] in *.
  unfold in_order. cbn [manager cursor received].
  rewrite Hfile_start, Hfile_rows, Hstart. repeat split; try done.
  - by rewrite <- app_assoc.
  - rewrite !fmap_app, Hreceived. cbn [fmap list_fmap].
    unfold range_of_file, range_of_link. by rewrite Hfile_start, Hfile_rows.
  - rewrite fmap_app. eapply tiling_app; [exact Hdone|]. simpl. repeat split; auto.
Qed.

Lemma consume_in_order steps :
  ∀ done rest c,
    in_order N chain done rest (filter has_rows (registered steps)) c →
    ∃ done' rest', in_order N chain done' rest' [] (consume env steps c).
Proof.
  induction steps as [|[links next_row_index|] steps IH]; intros done rest c Hc; simpl in *.
  - by exists done, rest.
  - rewrite filter_app in Hc.
    apply (step_add_links_in_order _ _ _ _ next_row_index) in Hc.
    exact (IH _ _ _ Hc).
  - destruct (step_fetch_in_order _ _ _ _ Hc) as (done1 & rest1 & Hc1).
    exact (IH _ _ _ Hc1).
Qed.

End AnyEnvironment.

(** X17. Let the links registered over a session be gap-free and
    non-overlapping and cover the rows [0, N). Whatever the pool and the
    downloads do (rejections, timeouts, failures, expiries, exceptions),
    at every point of the session the files the consumer has received
    tile the rows from 0 to its cursor: they come in row order, without
    gap or overlap, each for a registered link and none twice, and the
    cursor never passes N. *)
Theorem received_files_are_in_order
    (env : Environment) (steps : list Step) (N : Z)
    (max_download_threads : Z) (lz4_compressed : bool) :
  covers N (registered steps) →
  tiling 0
    (cursor (consume env steps (starting (created max_download_threads lz4_compressed))))
    (range_of_file <$>
       received (consume env steps (starting (created max_download_threads lz4_compressed)))) ∧
  cursor (consume env steps (starting (created max_download_threads lz4_compressed))) ≤ N ∧
  range_of_file <$>
    received (consume env steps (starting (created max_download_threads lz4_compressed)))
  ⊆+ range_of_link <$> filter has_rows (registered steps).
Proof.
  intros (chain & Hperm & Htiling).
  set (c0 := starting (created max_download_threads lz4_compressed)).
  assert (H0 : in_order N chain [] chain (filter has_rows (registered steps)) c0).
  { repeat split; try done. simpl. by rewrite Hperm. }
  destruct (consume_in_order env N chain steps _ _ _ H0)
    as (done & rest & Hchain & Hreceived & Hdone & Hrest & _).
  rewrite Hreceived. repeat split.
  - done.
  - by apply tiling_le in Hrest.
  - rewrite Hperm, Hchain, fmap_app. by apply submseteq_inserts_r.
Qed.

Lemma received_files_are_in_order_witness :
  tiling 0
    (cursor (consume second_expired (two_batches ++ [Fetch; Fetch]) (starting fresh)))
    (range_of_file <$>
       received (consume second_expired (two_batches ++ [Fetch; Fetch]) (starting fresh))) ∧
  cursor (consume second_expired (two_batches ++ [Fetch; Fetch]) (starting fresh)) ≤ 30 ∧
  range_of_file <$>
    received (consume second_expired (two_batches ++ [Fetch; Fetch]) (starting fresh))
  ⊆+ range_of_link <$> filter has_rows (registered (two_batches ++ [Fetch; Fetch])).
Proof.
  apply (received_files_are_in_order second_expired (two_batches ++ [Fetch; Fetch]) 30 3 false).
  exists [link "a" 0 10; link "b" 10 15; link "c" 25 5]. split.
  - vm_compute. apply perm_skip, perm_swap.
  - simpl. lia.
Defined.

(** ** Scheduling follows arrival order *)

Section ArrivalOrder.

Variable env : Environment.

Lemma scheduled_first_filter next_row_index handlers :
  scheduled_first handlers →
  scheduled_first (filter (still_needed next_row_index) handlers).
Proof.
  intros (pre & post & -> & Hpre & Hpost).
  exists (filter (still_needed next_row_index) pre),
         (filter (still_needed next_row_index) post).
  rewrite filter_app. split; [done|]. split; by apply Forall_still_needed.
Qed.

Lemma scheduled_first_delete idx handlers :
  scheduled_first handlers → scheduled_first (delete idx handlers).
Proof.
  intros (pre & post & -> & Hpre & Hpost). revert idx.
  induction Hpre as [|p pre Hp Hpre IH]; intros idx.
  - exists [], (delete idx post). split; [done|]. split; [done | by apply Forall_delete].
  - destruct idx as [|idx].
    + by exists pre, post.
    + destruct (IH idx) as (pre' & post' & Heq & Hpre' & Hpost').
      exists (p :: pre'), post'. simpl. rewrite Heq. split; [done|].
      split; [by constructor | done].
Qed.

Lemma scheduled_first_pass s :
  scheduled_first (download_handlers (self s)) →
  scheduled_first (download_handlers (self (snd (_schedule_downloads env s)))).
Proof.
  intros (pre & post & Hhs & Hpre & Hpost).
  destruct (schedule_downloads_spec env s) as (pre0 & post0 & evs & Heq & -> & Hstop).
  simpl.
  assert (Hpre0 : Forall scheduled (scheduled_now <$> pre0)).
  { apply Forall_fmap, Forall_forall. intros h _. apply scheduled_now_scheduled. }
  exists (scheduled_now <$> pre0), post0. split; [done|]. split; [done|].
  destruct post0 as [|h post0]; [done|].
  destruct Hstop as (Hh & _).
  rewrite Hhs in Heq. apply app_eq_inv in Heq as [(k & -> & Hk) | (k & -> & ->)].
  - destruct k as [|h' k].
    + simpl in Hk. by rewrite Hk.
    + simpl in Hk. injection Hk as <- _.
      apply Forall_app in Hpre as (_ & Hpre). apply Forall_cons in Hpre as (Hh' & _).
      unfold scheduled in Hh'. congruence.
  - apply Forall_app in Hpost as (_ & Hpost). done.
Qed.

Lemma scheduled_first_after_scheduling next_row_index s :
  scheduled_first (download_handlers (self s)) →
  scheduled_first (download_handlers (self (after_scheduling env next_row_index s))).
Proof.
  intros Hs. unfold after_scheduling, bind. rewrite remove_past_handlers_spec.
  apply scheduled_first_pass. simpl. by apply scheduled_first_filter.
Qed.

Lemma scheduled_first_get_next next_row_index s :
  scheduled_first (download_handlers (self s)) →
  scheduled_first
    (download_handlers (self (snd (get_next_downloaded_file env next_row_index s)))).
Proof.
  intros Hs.
  pose proof (scheduled_first_after_scheduling next_row_index s Hs) as Hs2.
  assert (Hnil : scheduled_first []) by (by exists [], []).
  pose proof (get_next_downloaded_file_spec env next_row_index s) as Hspec.
  simpl in Hspec.
  destruct (download_handlers (self s)) as [|h0 hs0] eqn:Hhs.
  { rewrite Hspec. simpl. by rewrite Hhs. }
  destruct (located env next_row_index s) as [idx|].
  2:{ by rewrite Hspec. }
  destruct Hspec as (handler & r & s3 & evs & _ & _ & _ & _ & _ & Hres & ->).
  pose proof (resolution_handlers _ _ _ _ _ _ Hres) as Hhandlers.
  destruct r as [[|]|e]; simpl.
  - destruct Hres as (-> & _). by apply scheduled_first_delete.
  - by destruct Hhandlers as [-> | ->].
  - by destruct Hhandlers as [-> | ->].
Qed.

Lemma scheduled_first_add_file_links links next_row_index s :
  scheduled_first (download_handlers (self s)) →
  scheduled_first (download_handlers (self (snd (add_file_links links next_row_index s)))).
Proof.
  intros (pre & post & Hhs & Hpre & Hpost).
  unfold add_file_links, modify. simpl. rewrite add_file_links_loop_spec, Hhs.
  exists pre, (post ++ (new_handler (downloadable_result_settings (self s))
                          <$> filter has_rows links)).
  split; [by rewrite app_assoc|]. split; [done|].
  apply Forall_app. split; [done|]. by apply Forall_fmap, Forall_forall.
Qed.

Lemma scheduled_first_run calls :
  ∀ s, scheduled_first (download_handlers (self s)) →
       scheduled_first (download_handlers (self (run env calls s))).
Proof.
  induction calls as [|c calls IH]; intros s Hs; [done|].
  cbn [run foldl]. apply IH.
  destruct c as [links next_row_index | next_row_index]; cbn [perform].
  - by apply scheduled_first_add_file_links.
  - by apply scheduled_first_get_next.
Qed.

End ArrivalOrder.

(** X18. Downloads are started in arrival order: in a manager built by
    [__init__] and used through [add_file_links] and
    [get_next_downloaded_file], the scheduled handlers always come before
    the unscheduled ones in the pending list, so no handler is waiting
    for the pool while one registered after it has been taken. *)
Theorem scheduled_handlers_come_first
    (env : Environment) (max_download_threads : Z) (lz4_compressed : bool)
    (calls : list Call) :
  scheduled_first
    (download_handlers
       (self (run env calls (created max_download_threads lz4_compressed)))).
Proof. apply scheduled_first_run. by exists [], []. Qed.

(** ** Several handles that start at the requested row *)

Section SameStart.

Variable env : Environment.




End SameStart.



(** The two cases at work on [same_start]: when the first match succeeds
    it is delivered and the second stays pending; when the first match has
    expired the call returns [None] and nothing stays pending. *)
Lemma duplicate_start_examples :
  (fst (get_next_downloaded_file all_succeed 0 same_start)
   = Returns (Some {| file_bytes := [x2a]; start_row_offset := 0; row_count := 10 |}) ∧
   download_handlers (self (snd (get_next_downloaded_file all_succeed 0 same_start)))
   = [second_at_0]) ∧
  (fst (get_next_downloaded_file first_expired 0 same_start) = Returns None ∧
   download_handlers (self (snd (get_next_downloaded_file first_expired 0 same_start)))
   = [] ∧
   fetch_need_retry (self (snd (get_next_downloaded_file first_expired 0 same_start)))
   = true).
Proof. by vm_compute. Qed.
